(** * Tile registration and mosaic stitching: the parallel engine

    A shallow embedding of [broadside/scripts/register_and_stitch.py]:
    the two task executors, the parallel mosaic assembler, the edge aligner's
    threshold computation and edge registration, the layer aligner's
    registration, and the part of [process_single] that configures the edge
    aligner.

    Conventions.
    - Python integers are [Z] (or [nat] where the code only counts).
    - Floating-point quantities (error scores, shifts, offsets computed from
      stage positions) are abstracted to rationals [Q]; an error score is a
      rational or [np.inf].
    - A raised exception is the left injection of [result].
    - The order in which a thread pool completes its tasks is an explicit
      argument (a list of submission indices).
    - Functions of the [ashlar] library and of the reader are Section
      variables, total and pure as their interface contracts state; the
      registration of an edge, a worker task that can fail, returns a
      [result]. *)

From stdpp Require Import base list gmap strings.
From Stdlib Require Import ZArith QArith Qabs Lia.

Close Scope Q_scope.

(** ** Exceptions and results *)

Inductive exn : Type :=
  | ValueError
  | TypeError
  | NameError
  | AttributeError
  | IndexError
  | TaskError (code : nat).

Definition result (A : Type) : Type := (exn + A)%type.

Abbreviation raise e := (inl e) (only parsing).

Abbreviation ok a := (inr a) (only parsing).

(** ** Error scores: a float that may be [np.inf] *)

Inductive score : Type :=
  | Finite (q : Q)
  | Inf.

(** [a > b] on scores. *)
Definition score_gtb (a b : score) : bool :=
  match a, b with
  | Inf, Inf => false
  | Inf, Finite _ => true
  | Finite _, Inf => false
  | Finite x, Finite y => negb (Qle_bool x y)
  end.

(** [a > b] on scores, as a proposition. *)
Definition score_exceeds (a b : score) : Prop :=
  match a, b with
  | Inf, Inf => False
  | Inf, Finite _ => True
  | Finite _, Inf => False
  | Finite x, Finite y => (y < x)%Q
  end.

(** [a < b] and [a > b] on floats. *)
Definition Qltb (a b : Q) : bool := negb (Qle_bool b a).

Definition Qgtb (a b : Q) : bool := Qltb b a.

(** A sub-pixel shift [(dy, dx)]. *)
Definition shift : Type := (Q * Q)%type.

(** ** Task executor *)

Module Executor.
Section Executor.
Context {A B : Type}.

(** The loop [for future in as_completed(futures)] of
    [execute_parallel_with_ordered_results].  [order] lists the submission
    indices of the futures in the order they complete; [futures[future]] is
    that index, [future.result()] is the task's value or re-raises what the
    task raised.  Only submitted futures are ever yielded, so an index
    without an argument tuple stands for no future and is passed over. *)
Fixpoint drain (func : A → result B) (args : list A) (order : list nat)
    (results : list (option B)) : result (list (option B)) :=
  match order with
  | [] => ok results
  | index :: rest =>
      match args !! index with
      | None => drain func args rest results
      | Some arg =>
          match func arg with
          | inl e => raise e
          | inr v => drain func args rest (<[index := Some v]> results)
          end
      end
  end.

(** [results = [None for _ in range(len(args))]], then the loop. *)
Definition execute_parallel_with_ordered_results (func : A → result B)
    (args : list A) (order : list nat) : result (list (option B)) :=
  drain func args order (replicate (length args) None).

(** [execute_parallel]: the tasks run for their effect on a shared state
    [S].  A task returns a value or raises, and either way leaves the state
    as it was when it stopped: what it did before raising stays done.  The
    loop over [as_completed] only advances the progress bar and never calls
    [future.result()], so neither the value nor the exception is read.
    [order] is the order in which the tasks take effect. *)
Fixpoint run_tasks {S : Type} (func : A → S → result B * S) (args : list A)
    (order : list nat) (st : S) : S :=
  match order with
  | [] => st
  | index :: rest =>
      match args !! index with
      | None => run_tasks func args rest st
      | Some arg => run_tasks func args rest (snd (func arg st))
      end
  end.

Definition execute_parallel {S : Type} (func : A → S → result B * S)
    (args : list A) (order : list nat) (st : S) : S :=
  run_tasks func args order st.

End Executor.
End Executor.

(** ** Layer aligner *)

Module ParallelLayerAligner.

Record LayerAligner : Type := {
  num_images : nat;
  shifts : list shift;
  errors : list score;
}.

(** [shift, error = list(zip( *results ))]: unpacking the transposed results
    into two names.  With no result at all the transposition is empty and the
    unpacking raises [ValueError]; a [None] left in [results] cannot be
    unpacked by [zip] ([TypeError]). *)
Definition unzip_results (results : list (option (shift * score)))
    : result (list shift * list score) :=
  match results with
  | [] => raise ValueError
  | _ =>
      match mapM id results with
      | None => raise TypeError
      | Some rs => ok (rs.*1, rs.*2)
      end
  end.

(** [register_all].  [register] is [LayerAligner.register] of [ashlar]: tile
    index to (shift, error).  The two asserts on the array shapes hold by the
    types: every shift is a pair, and [shifts] and [errors] are as long as
    [results]. *)
Definition register_all (register : nat → result (shift * score))
    (order : list nat) (self : LayerAligner) : result LayerAligner :=
  let n := num_images self in
  let args := seq 0 n in
  match Executor.execute_parallel_with_ordered_results register args order with
  | inl e => raise e
  | inr results =>
      match unzip_results results with
      | inl e => raise e
      | inr (shift, error) =>
          ok {| num_images := n; shifts := shift; errors := error |}
      end
  end.

End ParallelLayerAligner.

(** ** Mosaic assembler *)

Module ParallelMosaic.

(** A two-dimensional array: its rows, and the length every row has.
    [len(out)] is the number of rows. *)
Record ndarray : Type := {
  rows : list (list Z);
  ncols : nat;
}.

Definition shape (a : ndarray) : nat * nat := (length (rows a), ncols a).

(** [np.zeros(shape, dtype)] *)
Definition zeros (s : nat * nat) : ndarray :=
  {| rows := replicate (fst s) (replicate (snd s) 0%Z); ncols := snd s |}.

Definition with_rows (f : list (list Z) → list (list Z)) (a : ndarray) : ndarray :=
  {| rows := f (rows a); ncols := ncols a |}.

Record Mosaic : Type := {
  mosaic_shape : nat * nat;
  flip_mosaic_x : bool;
  flip_mosaic_y : bool;
}.

(** The mosaic with both flips switched off. *)
Definition unflipped (self : Mosaic) : Mosaic :=
  {| mosaic_shape := mosaic_shape self;
     flip_mosaic_x := false; flip_mosaic_y := false |}.

(** Every row reversed; the order of the rows reversed. *)
Definition reverse_each_row (a : ndarray) : ndarray :=
  with_rows (fmap reverse) a.

Definition reverse_row_order (a : ndarray) : ndarray :=
  with_rows reverse a.

(** What the assembler does to the outside world, in order. *)
Inductive event : Type :=
  | Read (channel : Z) (series : nat)
  | CorrectIllumination (channel : Z) (series : nat)
  | Paste (series : nat).

(** What a call leaves behind: the value returned or the exception raised,
    the content of the caller's buffer afterwards (when one was supplied; the
    canvas is mutated in place), and the events. *)
Record outcome : Type := {
  returned : result ndarray;
  supplied_after : option ndarray;
  events : list event;
}.

(** [out[i] = out[i, ::-1]]; an index past the last row would raise, the loop
    never produces one. *)
Definition reverse_row (out : list (list Z)) (i : nat) : list (list Z) :=
  match out !! i with
  | Some r => <[i := reverse r]> out
  | None => out
  end.

(** [for i in range(len(out)): out[i] = out[i, ::-1]] *)
Definition flip_x (out : list (list Z)) : list (list Z) :=
  foldl reverse_row out (seq 0 (length out)).

(** [out[[i, -i - 1]] = out[[-i - 1, i]]]: the right-hand side is copied
    first, then row [i] and row [len(out) - 1 - i] are assigned in that
    order. *)
Definition swap_rows (out : list (list Z)) (i : nat) : list (list Z) :=
  let j := (length out - 1 - i)%nat in
  match out !! j, out !! i with
  | Some a, Some b => <[j := b]> (<[i := a]> out)
  | _, _ => out
  end.

(** [for i in range(len(out) // 2): out[[i, -i - 1]] = out[[-i - 1, i]]] *)
Definition flip_y (out : list (list Z)) : list (list Z) :=
  foldl swap_rows out (seq 0 (length out / 2)%nat).

Section Assemble.

Context {image position : Type}.

(** [reader.read(c=channel, series=si)] *)
Variable read : Z → nat → image.

(** [self.correct_illumination(img, channel)] *)
Variable correct_illumination : image → Z → image.

(** [utils.paste(out, img, position, func=utils.pastefunc_blend)], which
    writes into [out]. *)
Variable paste : ndarray → image → position → ndarray.

(** [for si, position in enumerate(positions)], from index [si] on. *)
Fixpoint paste_tiles (channel : Z) (si : nat) (positions : list position)
    (out : ndarray) : ndarray * list event :=
  match positions with
  | [] => (out, [])
  | position :: rest =>
      let img := read channel si in
      let img := correct_illumination img channel in
      let out := paste out img position in
      let '(out, evs) := paste_tiles channel (S si) rest out in
      (out, Read channel si :: CorrectIllumination channel si :: Paste si :: evs)
  end.

Definition assemble_channel_parallel (self : Mosaic) (channel : Z)
    (positions : list position) (out : option ndarray) : outcome :=
  let start :=
    match out with
    | None => ok (zeros (mosaic_shape self))
    | Some o =>
        if decide (shape o ≠ mosaic_shape self) then raise ValueError else ok o
    end in
  match start with
  | inl e => {| returned := raise e; supplied_after := out; events := [] |}
  | inr o =>
      let '(o, evs) := paste_tiles channel 0 positions o in
      let o := if flip_mosaic_x self then with_rows flip_x o else o in
      let o := if flip_mosaic_y self then with_rows flip_y o else o in
      {| returned := ok o;
         supplied_after := match out with Some _ => Some o | None => None end;
         events := evs |}
  end.

End Assemble.
End ParallelMosaic.

(** ** Edge aligner *)

Module ParallelEdgeAligner.

Local Open Scope Z_scope.

(** The overlap window of two tiles as [ashlar] computes it: an integer
    shape (height, width) and, per tile, the (row, column) offset of the
    window inside the tile. *)
Record Intersection : Type := {
  its_shape : Z * Z;
  its_offsets : (Q * Q) * (Q * Q);
}.

Record Metadata : Type := {
  num_images : Z;
  size : Z * Z;
}.

(** The fields of the aligner the parallel methods read or write.
    [neighbors_graph.edges] is the list [edges]; [thumbnail] is
    [self.reader.thumbnail]; a field that has not been assigned yet is
    [None]. *)
Record EdgeAligner : Type := {
  metadata : Metadata;
  edges : list (Z * Z);
  channel : Z;
  do_make_thumbnail : bool;
  randomize : bool;
  filter_sigma : Q;
  false_positive_ratio : Q;
  max_shift_pixels : Q;
  thumbnail : option ParallelMosaic.ndarray;
  errors_negative_sampled : option (list score);
  max_error : option score;
  all_errors : option (list score);
  _cache : gmap (Z * Z) (shift * score);
}.

Definition set_thumbnail (self : EdgeAligner) (t : ParallelMosaic.ndarray)
    : EdgeAligner :=
  {| metadata := metadata self; edges := edges self; channel := channel self;
     do_make_thumbnail := do_make_thumbnail self; randomize := randomize self;
     filter_sigma := filter_sigma self;
     false_positive_ratio := false_positive_ratio self;
     max_shift_pixels := max_shift_pixels self;
     thumbnail := Some t;
     errors_negative_sampled := errors_negative_sampled self;
     max_error := max_error self; all_errors := all_errors self;
     _cache := _cache self |}.

Definition set_threshold (self : EdgeAligner) (sampled : list score)
    (m : score) : EdgeAligner :=
  {| metadata := metadata self; edges := edges self; channel := channel self;
     do_make_thumbnail := do_make_thumbnail self; randomize := randomize self;
     filter_sigma := filter_sigma self;
     false_positive_ratio := false_positive_ratio self;
     max_shift_pixels := max_shift_pixels self;
     thumbnail := thumbnail self;
     errors_negative_sampled := Some sampled;
     max_error := Some m; all_errors := all_errors self;
     _cache := _cache self |}.

Definition set_records (self : EdgeAligner) (all : list score)
    (cache : gmap (Z * Z) (shift * score)) : EdgeAligner :=
  {| metadata := metadata self; edges := edges self; channel := channel self;
     do_make_thumbnail := do_make_thumbnail self; randomize := randomize self;
     filter_sigma := filter_sigma self;
     false_positive_ratio := false_positive_ratio self;
     max_shift_pixels := max_shift_pixels self;
     thumbnail := thumbnail self;
     errors_negative_sampled := errors_negative_sampled self;
     max_error := max_error self; all_errors := Some all;
     _cache := cache |}.

(** One sampled pair of strips: [(t1, t2, o1, o2)]. *)
Definition sample : Type := (Z * Z * Z * Z)%type.

(** What threshold computation does, in order: a draw of the retry loop, the
    warning of the exhausted loop, the submission of one strip registration
    to the executor. *)
Inductive event : Type :=
  | Draw (s : sample)
  | Warn
  | Register (w : Z) (s : sample).

(** *** The sampling monad: a random generator, the event log, exceptions *)

(** [np.random.RandomState]: a sequence of raw draws and the position in
    it. *)
Record world : Type := {
  rng_source : nat → Z;
  rng_pos : nat;
  log : list event;
}.

Definition M (A : Type) : Type := world → result A * world.

Definition ret {A} (a : A) : M A := λ w, (ok a, w).

Definition throw {A} (e : exn) : M A := λ w, (raise e, w).

Definition bind {A B} (m : M A) (k : A → M B) : M B :=
  λ w, match m w with
       | (inl e, w') => (inl e, w')
       | (inr a, w') => k a w'
       end.

Notation "x <~ m ; k" := (bind m (λ x, k))
  (at level 20, m at level 100, k at level 200, only parsing).

Notation "' p <~ m ; k" := (bind m (λ x, match x with p => k end))
  (at level 20, p pattern, m at level 100, k at level 200, only parsing).

Definition tell (evs : list event) : M unit :=
  λ w, (ok tt, {| rng_source := rng_source w; rng_pos := rng_pos w;
                  log := log w ++ evs |}).

(** [random_state.randint(high, size=2)]: two integers of [0 .. high - 1];
    [ValueError] when that range is empty. *)
Definition randint2 (high : Z) : M (Z * Z) :=
  λ w, if high <=? 0 then (raise ValueError, w)
       else
         let a := rng_source w (rng_pos w) mod high in
         let b := rng_source w (S (rng_pos w)) mod high in
         (ok (a, b), {| rng_source := rng_source w;
                        rng_pos := S (S (rng_pos w));
                        log := log w |}).

(** [(t1, t2) in edges] on the edge view of an undirected graph. *)
Definition in_edges (es : list (Z * Z)) (t1 t2 : Z) : bool :=
  existsb (λ e, ((fst e =? t1) && (snd e =? t2))
               || ((fst e =? t2) && (snd e =? t1))) es.

(** [a[start:stop]] on the first axis: an index below zero counts from the
    end, and both are clipped to the array. *)
Definition clip_index (len i : Z) : Z :=
  let i := if i <? 0 then i + len else i in
  Z.max 0 (Z.min len i).

Definition py_slice {A} (start stop : Z) (a : list A) : list A :=
  let len := Z.of_nat (length a) in
  let first := clip_index len start in
  let last := clip_index len stop in
  take (Z.to_nat (last - first)) (drop (Z.to_nat first) a).

(** [a.max()] of a one-dimensional array; there is none of an empty one. *)
Definition array_max (a : list Z) : option Z :=
  match a with
  | [] => None
  | x :: xs => Some (foldl Z.max x xs)
  end.

(** [num_tiles * (num_tiles - 1) // 2 - len(edges)]: the number of possible
    pairs minus the number of neighbor pairs. *)
Definition num_distant_pairs (self : EdgeAligner) : Z :=
  let num_tiles := num_images (metadata self) in
  num_tiles * (num_tiles - 1) / 2 - Z.of_nat (length (edges self)).

(** [n = 1000 if num_distant_pairs > 8 else (num_distant_pairs + 1) * 10] *)
Definition num_samples (self : EdgeAligner) : Z :=
  if num_distant_pairs self >? 8 then 1000
  else (num_distant_pairs self + 1) * 10.

(** [max_tries = 100] *)
Definition max_tries : nat := 100.

Section Methods.

(** [self.intersection(t1, t2, min_size)] of [ashlar]; [None] when the
    third argument is left out. *)
Variable intersection : Z → Z → option Z → Intersection.

(** [self.reader.read(series, c)]: the rows of a tile's image. *)
Variable read : Z → Z → list (list Z).

(** [utils.register(img1, img2, sigma, upsample=1)] of [ashlar]: the
    cross-correlation primitive, to a shift and an error score. *)
Variable utils_register : list (list Z) → list (list Z) → Q → shift * score.

(** [np.percentile(a, q)] *)
Variable percentile : list score → Q → score.

(** The raw draws of [np.random.RandomState(0)] and of
    [np.random.RandomState()]. *)
Variable seeded : nat → Z.

Variable entropy : nat → Z.

(** The module-level [make_thumbnail(reader, channel, verbose)]. *)
Variable make_thumbnail_image : Metadata → Z → ParallelMosaic.ndarray.

(** The shift and error score [ashlar] computes for the tile pair of an
    edge. *)
Variable align : Z → Z → result (shift * score).

Definition make_thumbnail (self : EdgeAligner) : EdgeAligner :=
  if negb (do_make_thumbnail self) then self
  else set_thumbnail self (make_thumbnail_image (metadata self) (channel self)).

(** [self.intersection(t1, t2).shape.min()] *)
Definition min_dimension (e : Z * Z) : Z :=
  let s := its_shape (intersection (fst e) (snd e) None) in
  Z.min (fst s) (snd s).

(** [widths = np.array([... for t1, t2 in edges])] *)
Definition widths (self : EdgeAligner) : list Z :=
  min_dimension <$> edges self.

(** [w = widths.max()] *)
Definition strip_width (self : EdgeAligner) : option Z :=
  array_max (widths self).

(** The nested function [register] of [compute_threshold]: the error score
    of registering the strip of height [w] at [offset1] of tile [t1] against
    the one at [offset2] of tile [t2]. *)
Definition register (self : EdgeAligner) (w : Z) (s : sample) : score :=
  let '(t1, t2, offset1, offset2) := s in
  let img1 := py_slice offset1 (offset1 + w) (read t1 (channel self)) in
  let img2 := py_slice offset2 (offset2 + w) (read t2 (channel self)) in
  snd (utils_register img1 img2 (filter_sigma self)).

(** The three-way test of the retry loop: [true] where the loop breaks. *)
Definition non_overlapping (self : EdgeAligner) (w : Z) (s : sample) : bool :=
  let '(t1, t2, o1, o2) := s in
  let adjacent := in_edges (edges self) t1 t2 in
  if negb (t1 =? t2) && negb adjacent then true
  else if (t1 =? t2) && (Z.abs (o1 - o2) >? w) then true
  else if adjacent then
    let its := intersection t1 t2 (Some w) in
    let ioff1 := fst (fst (its_offsets its)) in
    let ioff2 := fst (snd (its_offsets its)) in
    (fst (its_shape its) >? snd (its_shape its))
    || Qltb (inject_Z o1) (ioff1 - inject_Z w)
    || Qgtb (inject_Z o1) (ioff1 + inject_Z w)
    || Qltb (inject_Z o2) (ioff2 - inject_Z w)
    || Qgtb (inject_Z o2) (ioff2 + inject_Z w)
  else false.

(** [for current_try in range(max_tries): ... else: ...] with [tries]
    iterations left.  [last] holds what [t1, t2, o1, o2] are bound to;
    the second component tells whether the loop was left by [break]. *)
Fixpoint retry (self : EdgeAligner) (w max_offset : Z) (tries : nat)
    (last : option sample) : M (option sample * bool) :=
  match tries with
  | O => ret (last, false)
  | S k =>
      '(t1, t2) <~ randint2 (num_images (metadata self));
      '(o1, o2) <~ randint2 max_offset;
      _ <~ tell [Draw (t1, t2, o1, o2)];
      if non_overlapping self w (t1, t2, o1, o2)
      then ret (Some (t1, t2, o1, o2), true)
      else retry self w max_offset k (Some (t1, t2, o1, o2))
  end.

(** [for i in range(n)]: one retry loop, the warning when it ran out, then
    [pairs[i] = t1, t2] and [offsets[i] = o1, o2]. *)
Fixpoint sample_loop (self : EdgeAligner) (w max_offset : Z) (n : nat)
    (last : option sample) : M (list sample) :=
  match n with
  | O => ret []
  | S k =>
      '(last, found) <~ retry self w max_offset max_tries last;
      _ <~ (if found : bool then ret tt else tell [Warn]);
      match last with
      | None => throw NameError
      | Some s =>
          rest <~ sample_loop self w max_offset k (Some s);
          ret (s :: rest)
      end
  end.

Definition compute_threshold (order : list nat) (self : EdgeAligner)
    : result EdgeAligner * list event :=
  if Z.of_nat (length (edges self)) <=? 1 then
    (ok (set_threshold self [] Inf), [])
  else
    match strip_width self with
    | None => (raise ValueError, [])
    | Some w =>
        let max_offset := fst (size (metadata self)) - w in
        let n := num_samples self in
        if n <? 0 then (raise ValueError, [])
        else
          let random_state :=
            {| rng_source := if randomize self then entropy else seeded;
               rng_pos := 0; log := [] |} in
          let sampling :=
            samples <~ sample_loop self w max_offset (Z.to_nat n) None;
            _ <~ tell (Register w <$> samples);
            ret samples in
          match sampling random_state with
          | (inl e, wd) => (raise e, log wd)
          | (inr args, wd) =>
              match Executor.execute_parallel_with_ordered_results
                      (λ a, ok (register self w a)) args order with
              | inl e => (raise e, log wd)
              | inr results =>
                  match mapM id results with
                  | None => (raise TypeError, log wd)
                  | Some errors =>
                      (ok (set_threshold self errors
                             (percentile errors
                                (false_positive_ratio self * 100)%Q)),
                       log wd)
                  end
              end
          end
    end.

(** Modelled from the spec: [register_pair], which [ParallelEdgeAligner]
    inherits from [ashlar]'s [EdgeAligner] and which is not part of this
    repository.  The spec keeps one alignment record (shift, error) per edge
    of the undirected graph, keyed by the edge: the key is the tile pair in
    increasing order, and a pair already in the table is not computed
    again.  Computing a record reads both tiles and runs the
    cross-correlation primitive, [align] here, and is a worker task that can
    fail (corrupt tile, I/O error): it then raises before anything is stored,
    and the table is as it was.  The pair the method returns is read by no
    caller in this repository and is left out. *)
Definition edge_key (e : Z * Z) : Z * Z :=
  (Z.min (fst e) (snd e), Z.max (fst e) (snd e)).

Definition register_pair (e : Z * Z) (cache : gmap (Z * Z) (shift * score))
    : result unit * gmap (Z * Z) (shift * score) :=
  match cache !! edge_key e with
  | Some _ => (ok tt, cache)
  | None =>
      match align (fst (edge_key e)) (snd (edge_key e)) with
      | inl err => (raise err, cache)
      | inr record => (ok tt, <[edge_key e := record]> cache)
      end
  end.

(** [v[1] > self.max_error or np.any(np.abs(v[0]) > self.max_shift_pixels)] *)
Definition rejected (threshold : score) (max_shift : Q) (v : shift * score)
    : bool :=
  score_gtb (snd v) threshold
  || (Qgtb (Qabs (fst (fst v))) max_shift || Qgtb (Qabs (snd (fst v))) max_shift).

(** The body of [for k, v in self._cache.items()]. *)
Definition apply_threshold (threshold : score) (max_shift : Q)
    (v : shift * score) : shift * score :=
  if rejected threshold max_shift v then (fst v, Inf) else v.

(** The table when [execute_parallel(self.register_pair, args=args)]
    returns, [args] being the graph's edges. *)
Definition registered (order : list nat) (self : EdgeAligner)
    : gmap (Z * Z) (shift * score) :=
  let args := edges self in
  Executor.execute_parallel register_pair args order (_cache self).

(** [register_all].  The loop over the table reads [self.max_error] once per
    record, an [AttributeError] while threshold computation has not assigned
    it.  [all_errors] lists the scores before rejection, in the order of the
    table, which the model does not keep. *)
Definition register_all (order : list nat) (self : EdgeAligner)
    : result EdgeAligner :=
  let cache := registered order self in
  let all := snd <$> (snd <$> map_to_list cache) in
  if decide (cache = ∅) then ok (set_records self all cache)
  else
    match max_error self with
    | None => raise AttributeError
    | Some threshold =>
        ok (set_records self all
              (apply_threshold threshold (max_shift_pixels self) <$> cache))
    end.

(** *** Vocabulary of the statements *)

(** The smallest element of a one-dimensional array. *)
Definition array_min (a : list Z) : option Z :=
  match a with
  | [] => None
  | x :: xs => Some (foldl Z.min x xs)
  end.

(** The strip width in the spec's words: the smallest overlap-region
    dimension across all graph edges. *)
Definition strip_width_spec (self : EdgeAligner) : option Z :=
  array_min (widths self).

(** The events of one round of the sampling loop that made the draws
    [earlier] and then the draw [s] it kept. *)
Definition round_events (self : EdgeAligner) (w : Z) (earlier : list sample)
    (s : sample) : list event :=
  (Draw <$> earlier ++ [s])
  ++ (if non_overlapping self w s then [] else [Warn]).

(** What holds of one round: every draw before the kept one failed the
    test, there were fewer than [max_tries] of them, and a kept draw that
    fails the test is the last of [max_tries]. *)
Definition round_ok (self : EdgeAligner) (w : Z) (earlier : list sample)
    (s : sample) : Prop :=
  Forall (λ d, non_overlapping self w d = false) earlier
  ∧ (length earlier < max_tries)%nat
  ∧ (non_overlapping self w s = false → S (length earlier) = max_tries).

(** What [register_pair] finds for an edge: the record already in the
    table, or else what computing one gives, a record or an exception. *)
Definition record_of (cache : gmap (Z * Z) (shift * score)) (k : Z * Z)
    : result (shift * score) :=
  match cache !! k with
  | Some record => ok record
  | None => align (fst k) (snd k)
  end.

(** The entry of the table under an edge's key once [register_pair] has run
    for the edge: none when the registration raised. *)
Definition record_after (cache : gmap (Z * Z) (shift * score)) (k : Z * Z)
    : option (shift * score) :=
  match record_of cache k with
  | inr record => Some record
  | inl _ => None
  end.

(** The rejection rule in the spec's words: the magnitude of the shift
    vector, the square root of [dy * dy + dx * dx], exceeds the bound. *)
Definition shift_magnitude_exceeds (s : shift) (bound : Q) : Prop :=
  (bound < 0 ∨ bound * bound < fst s * fst s + snd s * snd s)%Q.

Definition is_register (ev : event) : bool :=
  match ev with
  | Register _ _ => true
  | _ => false
  end.

Definition is_draw (ev : event) : bool :=
  match ev with
  | Draw _ => true
  | _ => false
  end.

Definition is_warn (ev : event) : bool :=
  match ev with
  | Warn => true
  | _ => false
  end.

(** A submitted registration whose pair fails the non-overlap test. *)
Definition registers_unverified (self : EdgeAligner) (ev : event) : bool :=
  match ev with
  | Register w s => negb (non_overlapping self w s)
  | _ => false
  end.

(** The tile indices of a pair are tiles of the layer and its offsets lie
    in the offset range. *)
Definition in_range (self : EdgeAligner) (max_offset : Z) (s : sample)
    : Prop :=
  let '(t1, t2, o1, o2) := s in
  (0 ≤ t1 < num_images (metadata self))
  ∧ (0 ≤ t2 < num_images (metadata self))
  ∧ (0 ≤ o1 < max_offset)
  ∧ (0 ≤ o2 < max_offset).

(** The strip pairs submitted for registration, in submission order, each
    with its strip width. *)
Definition submitted (evs : list event) : list (Z * sample) :=
  omap (λ ev, match ev with
              | Register w s => Some (w, s)
              | _ => None
              end) evs.

(** A graph without loops or repeated edges on the tiles [0 .. tiles - 1]. *)
Definition simple_graph (tiles : Z) (es : list (Z * Z)) : Prop :=
  NoDup (edge_key <$> es)
  ∧ ∀ e, e ∈ es → (0 ≤ fst e < tiles) ∧ (0 ≤ snd e < tiles) ∧ fst e ≠ snd e.

(** The pairs [(a, b)] of tiles with [a < b < n]. *)
Definition tile_pairs (n : nat) : list (Z * Z) :=
  b ← seq 0 n; (λ a, (Z.of_nat a, Z.of_nat b)) <$> seq 0 b.

(** A submitted registration uses the strip width [w], a pair in range, and
    two strips of exactly [w] rows. *)
Definition strip_inside (self : EdgeAligner) (w : Z) (ev : event) : Prop :=
  match ev with
  | Register w' (t1, t2, o1, o2) =>
      w' = w
      ∧ in_range self (fst (size (metadata self)) - w) (t1, t2, o1, o2)
      ∧ length (py_slice o1 (o1 + w) (read t1 (channel self))) = Z.to_nat w
      ∧ length (py_slice o2 (o2 + w) (read t2 (channel self))) = Z.to_nat w
  | _ => True
  end.

End Methods.
End ParallelEdgeAligner.

(** ** The edge aligner inside [process_single] *)

Module Pipeline.

Import ParallelEdgeAligner.

(** The states the edge aligner passes through after construction. *)
Inductive stage : Type :=
  | ThumbnailBuilt
  | ThresholdComputed
  | EdgesRegistered
  | Done.

(** The keyword dictionary [aligner_args]; the key [do_make_thumbnail] may be
    absent. *)
Record AlignerArgs : Type := {
  arg_channel : Z;
  arg_filter_sigma : Q;
  arg_max_shift_pixels : Q;
  arg_false_positive_ratio : Q;
  arg_randomize : bool;
  arg_do_make_thumbnail : option bool;
}.

(** [ea_args["do_make_thumbnail"] = False] *)
Definition disable_thumbnail (a : AlignerArgs) : AlignerArgs :=
  {| arg_channel := arg_channel a;
     arg_filter_sigma := arg_filter_sigma a;
     arg_max_shift_pixels := arg_max_shift_pixels a;
     arg_false_positive_ratio := arg_false_positive_ratio a;
     arg_randomize := arg_randomize a;
     arg_do_make_thumbnail := Some false |}.

Section Pipeline.

Variable intersection : Z → Z → option Z → Intersection.

Variable read : Z → Z → list (list Z).

Variable utils_register : list (list Z) → list (list Z) → Q → shift * score.

Variable percentile : list score → Q → score.

Variable seeded : nat → Z.

Variable entropy : nat → Z.

Variable make_thumbnail_image : Metadata → Z → ParallelMosaic.ndarray.

Variable align : Z → Z → result (shift * score).

(** [ThreadSafeBioformatsReader(path)]: the layer's metadata. *)
Variable open_reader : string → Metadata.

(** The adjacency graph of a layer, from the nominal tile positions. *)
Variable neighbors_graph : Metadata → list (Z * Z).

(** Modelled from the spec: the constructor of [ashlar]'s [EdgeAligner],
    which is not part of this repository.  The adjacency graph is built from
    the nominal positions at construction, the alignment records start
    empty, no threshold and no thumbnail exist yet, and the thumbnail is
    built unless the caller's arguments say otherwise. *)
Definition construct (reader : Metadata) (a : AlignerArgs) : EdgeAligner :=
  {| metadata := reader;
     edges := neighbors_graph reader;
     channel := arg_channel a;
     do_make_thumbnail := default true (arg_do_make_thumbnail a);
     randomize := arg_randomize a;
     filter_sigma := arg_filter_sigma a;
     false_positive_ratio := arg_false_positive_ratio a;
     max_shift_pixels := arg_max_shift_pixels a;
     thumbnail := None;
     errors_negative_sampled := None;
     max_error := None;
     all_errors := None;
     _cache := ∅ |}.

(** Modelled from the spec: [run] of [ashlar]'s [EdgeAligner], which is not
    part of this repository.  The spec's states are constructed, thumbnail
    built (optional), threshold computed, edges registered, done; [run]
    calls the methods in that order and the result lists the states
    reached.  The two executor runs have their own completion orders. *)
Definition run (order_threshold order_edges : list nat) (self : EdgeAligner)
    : result EdgeAligner * list stage :=
  let self := make_thumbnail make_thumbnail_image self in
  let built :=
    match thumbnail self with
    | Some _ => [ThumbnailBuilt]
    | None => []
    end in
  match fst (compute_threshold intersection read utils_register percentile seeded
               entropy order_threshold self) with
  | inl e => (raise e, built)
  | inr self =>
      match register_all align order_edges self with
      | inl e => (raise e, built ++ [ThresholdComputed])
      | inr self =>
          (ok self, built ++ [ThresholdComputed; EdgesRegistered; Done])
      end
  end.

(** [process_single] up to [edge_aligner.run()]: the first file is the
    reference layer. *)
Definition process_single (order_threshold order_edges : list nat)
    (filepaths : list string) (aligner_args : AlignerArgs)
    : result EdgeAligner * list stage :=
  match filepaths with
  | [] => (raise IndexError, [])
  | path :: _ =>
      let reader := open_reader path in
      let ea_args :=
        if decide (length filepaths = 1%nat)
        then disable_thumbnail aligner_args
        else aligner_args in
      let edge_aligner := construct reader ea_args in
      run order_threshold order_edges edge_aligner
  end.

End Pipeline.
End Pipeline.

(** ** Multi-cycle writer *)

Module ParallelTiffListWriter.

Section Writer.

Context {mosaic : Type}.

(** [mosaic.channels] *)
Variable channels : mosaic → list Z.

(** [self.path_format.format(cycle=cycle, channel=channel)] *)
Variable path_format : nat → Z → string.

(** One argument tuple of [write]:
    [(cycle, mosaic, channel, path, tqdm_ind)]. *)
Record task : Type := {
  task_cycle : nat;
  task_mosaic : mosaic;
  task_channel : Z;
  task_path : string;
  task_tqdm_ind : nat;
}.

(** [for channel in mosaic.channels], with the counter [tqdm_ind]. *)
Fixpoint channel_args (cycle : nat) (m : mosaic) (chs : list Z)
    (tqdm_ind : nat) : list task :=
  match chs with
  | [] => []
  | channel :: rest =>
      {| task_cycle := cycle; task_mosaic := m; task_channel := channel;
         task_path := path_format cycle channel; task_tqdm_ind := tqdm_ind |}
      :: channel_args cycle m rest (S tqdm_ind)
  end.

(** [for cycle, mosaic in enumerate(self.mosaics)], from [cycle] on. *)
Fixpoint mosaic_args (cycle : nat) (mosaics : list mosaic) (tqdm_ind : nat)
    : list task :=
  match mosaics with
  | [] => []
  | m :: rest =>
      channel_args cycle m (channels m) tqdm_ind
      ++ mosaic_args (S cycle) rest (tqdm_ind + length (channels m))
  end.

(** The list [args] that [run] hands to [execute_parallel]. *)
Definition write_args (mosaics : list mosaic) : list task :=
  mosaic_args 0 mosaics 0.

End Writer.

Arguments task : clear implicits.

End ParallelTiffListWriter.

(** ** Concrete layers used in the examples *)

Module Fixtures.

Import ParallelEdgeAligner.

Local Open Scope Z_scope.

(** A row of tiles of 100 by 100 pixels, each overlapping the next in a band
    as high as the tile and [band t] pixels wide, [t] the left tile. *)
Definition row_intersection (band : Z → Z) (t1 t2 : Z) (min_size : option Z)
    : Intersection :=
  let m := default 1 min_size in
  let b := band (Z.min t1 t2) in
  {| its_shape := (Z.max 100 m, Z.max b m);
     its_offsets := ((0%Q, inject_Z (100 - b)), (0%Q, 0%Q)) |}.

Definition row_layer (tiles : Z) (es : list (Z * Z)) : EdgeAligner :=
  {| metadata := {| num_images := tiles; size := (100, 100) |};
     edges := es;
     channel := 0;
     do_make_thumbnail := true;
     randomize := false;
     filter_sigma := 1%Q;
     false_positive_ratio := (1 # 100)%Q;
     max_shift_pixels := 15%Q;
     thumbnail := None;
     errors_negative_sampled := None;
     max_error := None;
     all_errors := None;
     _cache := ∅ |}.

(** Bands of 10 and 20 pixels; bands as wide as the tile. *)
Definition narrow_bands (t : Z) : Z := if t =? 0 then 10 else 20.

Definition full_bands (t : Z) : Z := 100.

Definition three_tiles : EdgeAligner := row_layer 3 [(0, 1); (1, 2)].

Definition six_tiles : EdgeAligner :=
  row_layer 6 [(0, 1); (1, 2); (2, 3); (3, 4); (4, 5)].

Definition raw_draws (k : nat) : Z :=
  Z.of_nat k * Z.of_nat k + 3 * Z.of_nat k + 1.

(** Tile [t] is 100 rows of 100 pixels, all of value [t]; the toy
    registration scores two strips by their height and first pixels. *)
Definition toy_read (series c : Z) : list (list Z) :=
  replicate 100 (replicate 100 series).

Definition toy_register (img1 img2 : list (list Z)) (sigma : Q)
    : shift * score :=
  ((0%Q, 0%Q),
   Finite (inject_Z (Z.of_nat (length img1)
                     + default 0 (head (concat img1))
                     + default 0 (head (concat img2))))).

Definition toy_percentile (a : list score) (q : Q) : score :=
  default Inf (head a).

Definition toy_align (t1 t2 : Z) : result (shift * score) :=
  ok ((inject_Z (10 * t1), inject_Z t2), Finite (inject_Z (t1 + t2))).

(** A registration that finds the shift (12, 12) with error 1 for every
    pair, except that tile 2 cannot be read: registering the pair (1, 2)
    raises. *)
Definition faulty_align (t1 t2 : Z) : result (shift * score) :=
  if (t2 =? 2)%Z then raise (TaskError 2)
  else ok ((12%Q, 12%Q), Finite 1%Q).

(** The three-tile layer once its threshold has been set to 2. *)
Definition three_tiles_thresholded : EdgeAligner :=
  set_threshold three_tiles [] (Finite 2%Q).

(** The same layer after its two edges have been registered. *)
Definition three_tiles_registered : EdgeAligner :=
  match register_all toy_align [1%nat; 0%nat] three_tiles_thresholded with
  | inr self' => self'
  | inl _ => three_tiles_thresholded
  end.

(** Threshold computation of the three-tile layer with bands of 10 and 20
    pixels. *)
Definition three_tiles_threshold_run : result EdgeAligner * list event :=
  compute_threshold (row_intersection narrow_bands) toy_read toy_register
    toy_percentile raw_draws raw_draws (seq 0 20) three_tiles.

Definition three_tiles_after_threshold : EdgeAligner :=
  match fst three_tiles_threshold_run with
  | inr self' => self'
  | inl _ => three_tiles
  end.

Definition toy_thumbnail (m : Metadata) (c : Z) : ParallelMosaic.ndarray :=
  ParallelMosaic.zeros (1%nat, 1%nat).

(** A reader of row layers of [tiles] tiles, the graph of such a layer, and
    the arguments [run] of the script passes, without the key
    [do_make_thumbnail]. *)
Definition row_reader (tiles : Z) (path : string) : Metadata :=
  {| num_images := tiles; size := (100, 100) |}.

Definition row_graph (m : Metadata) : list (Z * Z) :=
  (λ t, (t, t + 1)) <$> seqZ 0 (num_images m - 1).

Definition toy_args : Pipeline.AlignerArgs :=
  {| Pipeline.arg_channel := 0;
     Pipeline.arg_filter_sigma := 1%Q;
     Pipeline.arg_max_shift_pixels := 15%Q;
     Pipeline.arg_false_positive_ratio := (1 # 100)%Q;
     Pipeline.arg_randomize := false;
     Pipeline.arg_do_make_thumbnail := None |}.

Definition toy_process_single (tiles : Z) (filepaths : list string)
    : result EdgeAligner * list Pipeline.stage :=
  Pipeline.process_single (row_intersection narrow_bands) toy_read
    toy_register toy_percentile raw_draws raw_draws toy_thumbnail toy_align
    (row_reader tiles) row_graph (seq 0 20) [0%nat; 1%nat] filepaths toy_args.

End Fixtures.

(** * Properties *)

(** ** Task executor and layer aligner *)

Section ExecutorFacts.

Import Executor.

Context {A B : Type}.

(** However the futures complete, a slot holds its own task's value if its
    future completed and what it held before otherwise. *)
Lemma drain_lookup (func : A → result B) (f : A → B) (args : list A) :
  (∀ a, a ∈ args → func a = ok (f a)) →
  ∀ order results,
    ∃ rs, drain func args order results = ok rs
      ∧ length rs = length results
      ∧ ∀ i, i < length results →
          rs !! i = if decide (i ∈ order ∧ is_Some (args !! i))
                    then (λ a, Some (f a)) <$> args !! i
                    else results !! i.
Proof.
  intros Hf order. induction order as [|index rest IH]; intros results.
  - exists results. split; [done|]. split; [done|].
    intros i _. case_decide as H; [|done]. destruct H as [H _].
    by apply elem_of_nil in H.
  - simpl. destruct (args !! index) as [arg|] eqn:Harg.
    + rewrite (Hf arg) by (eapply list_elem_of_lookup_2; eauto).
      destruct (IH (<[index := Some (f arg)]> results)) as (rs & Hrs & Hlen & Hlk).
      exists rs. split; [done|]. rewrite length_insert in Hlen, Hlk.
      split; [done|]. intros i Hi. rewrite (Hlk i Hi).
      destruct (decide (i = index)) as [->|Hne].
      * rewrite Harg. simpl.
        rewrite (decide_True (P := index ∈ index :: rest ∧ _))
          by (split; [left|eauto]).
        case_decide; [done|]. by rewrite list_lookup_insert_eq.
      * rewrite list_lookup_insert_ne by done.
        destruct (decide (i ∈ rest ∧ is_Some (args !! i))) as [[H1 H2]|H1],
          (decide (i ∈ index :: rest ∧ is_Some (args !! i))) as [[H3 H4]|H3];
          try done; exfalso.
        -- apply H3. split; [by right|done].
        -- apply H1. split; [|done]. apply elem_of_cons in H3.
           destruct H3 as [?|?]; [congruence|done].
    + destruct (IH results) as (rs & Hrs & Hlen & Hlk).
      exists rs. split; [done|]. split; [done|]. intros i Hi.
      rewrite (Hlk i Hi).
      destruct (decide (i ∈ rest ∧ is_Some (args !! i))) as [[H1 H2]|H1],
        (decide (i ∈ index :: rest ∧ is_Some (args !! i))) as [[H3 H4]|H3];
        try done; exfalso.
      * apply H3. split; [by right|done].
      * apply H1. split; [|done]. apply elem_of_cons in H3.
        destruct H3 as [->|?]; [|done]. destruct H4 as [a Ha]. congruence.
Qed.

Lemma ordered_results_total (func : A → result B) (f : A → B)
    (args : list A) (order : list nat) :
  (∀ a, a ∈ args → func a = ok (f a)) →
  order ≡ₚ seq 0 (length args) →
  execute_parallel_with_ordered_results func args order
    = ok ((λ a, Some (f a)) <$> args).
Proof.
  intros Hf Hperm. unfold execute_parallel_with_ordered_results.
  destruct (drain_lookup func f args Hf order (replicate (length args) None))
    as (rs & -> & Hlen & Hlk).
  f_equal. rewrite length_replicate in Hlen, Hlk.
  apply list_eq. intros i. rewrite list_lookup_fmap.
  destruct (decide (i < length args)) as [Hi|Hi].
  - rewrite (Hlk i Hi). rewrite decide_True; [done|]. split.
    + rewrite Hperm. apply elem_of_seq. lia.
    + by apply lookup_lt_is_Some_2.
  - rewrite (lookup_ge_None_2 rs) by lia.
    by rewrite (lookup_ge_None_2 args) by lia.
Qed.

(** A task that raises makes the ordered executor raise: it is the
    exception of the first failed future in completion order. *)
Lemma drain_raises (func : A → result B) (args : list A) (index : nat)
    (rest : list nat) (results : list (option B)) (arg : A) (e : exn) :
  args !! index = Some arg → func arg = raise e →
  drain func args (index :: rest) results = raise e.
Proof. intros Harg He. simpl. by rewrite Harg, He. Qed.

End ExecutorFacts.

Lemma mapM_id_Some {A B : Type} (f : A → B) (l : list A) :
  mapM id ((λ a, Some (f a)) <$> l) = Some (f <$> l).
Proof.
  change (λ a, Some (f a)) with (Some ∘ f).
  rewrite list_fmap_compose. by apply mapM_fmap_Some.
Qed.

(** C1.  For every argument list and every function that returns a value on
    each argument tuple, and whatever the order in which the futures
    complete, [execute_parallel_with_ordered_results] returns a list as long
    as the argument list whose entry [i] is the function's value on argument
    tuple [i]; and for every tile [i] of a layer,
    [ParallelLayerAligner.register_all] returns with [shifts[i]] and
    [errors[i]] the shift and error [register] computes for tile [i]. *)
Theorem ordered_results_by_index {A B : Type} (func : A → result B)
    (f : A → B) (args : list A) (order : list nat)
    (register : nat → result (shift * score)) (reg : nat → shift * score)
    (self : ParallelLayerAligner.LayerAligner) (tile_order : list nat) :
  (∀ a, a ∈ args → func a = ok (f a)) →
  order ≡ₚ seq 0 (length args) →
  (∀ i, i < ParallelLayerAligner.num_images self → register i = ok (reg i)) →
  tile_order ≡ₚ seq 0 (ParallelLayerAligner.num_images self) →
  (∃ results,
      Executor.execute_parallel_with_ordered_results func args order = ok results
      ∧ length results = length args
      ∧ ∀ i a, args !! i = Some a → results !! i = Some (Some (f a)))
  ∧ (∀ i, i < ParallelLayerAligner.num_images self →
      ∃ self',
        ParallelLayerAligner.register_all register tile_order self = ok self'
        ∧ ParallelLayerAligner.num_images self' = ParallelLayerAligner.num_images self
        ∧ length (ParallelLayerAligner.shifts self') = ParallelLayerAligner.num_images self
        ∧ length (ParallelLayerAligner.errors self') = ParallelLayerAligner.num_images self
        ∧ ParallelLayerAligner.shifts self' !! i = Some (fst (reg i))
        ∧ ParallelLayerAligner.errors self' !! i = Some (snd (reg i))).
Proof.
  intros Hf Hperm Hreg Htiles. split.
  - exists ((λ a, Some (f a)) <$> args). split; [by apply ordered_results_total|].
    split; [by rewrite length_fmap|].
    intros i a Ha. by rewrite list_lookup_fmap, Ha.
  - intros i Hi. unfold ParallelLayerAligner.register_all.
    set (n := ParallelLayerAligner.num_images self) in *.
    rewrite (ordered_results_total register reg (seq 0 n) tile_order).
    + cbv beta iota.
      unfold ParallelLayerAligner.unzip_results. rewrite mapM_id_Some.
      destruct n as [|n]; [lia|]. cbn [seq fmap list_fmap].
      eexists. split; [reflexivity|]. cbn [ParallelLayerAligner.num_images
        ParallelLayerAligner.shifts ParallelLayerAligner.errors].
      repeat split.
      all: try change ((reg 0).1 :: (reg <$> seq 1 n).*1)
             with ((reg <$> seq 0 (S n)).*1).
      all: try change ((reg 0).2 :: (reg <$> seq 1 n).*2)
             with ((reg <$> seq 0 (S n)).*2).
      * rewrite !length_fmap, length_seq. done.
      * rewrite !length_fmap, length_seq. done.
      * rewrite !list_lookup_fmap, lookup_seq_lt by lia. done.
      * rewrite !list_lookup_fmap, lookup_seq_lt by lia. done.
    + intros a Ha. apply Hreg. apply elem_of_seq in Ha. lia.
    + by rewrite length_seq.
Qed.

Lemma ordered_results_by_index_witness :
  (∃ results,
      Executor.execute_parallel_with_ordered_results
        (λ a : nat, ok (a * a)) [3; 5; 7] [2; 0; 1] = ok results
      ∧ length results = 3
      ∧ ∀ i a, [3; 5; 7] !! i = Some a → results !! i = Some (Some (a * a)))
  ∧ (∀ i, i < 2 →
      ∃ self',
        ParallelLayerAligner.register_all
          (λ i, ok ((inject_Z (Z.of_nat i), 0%Q), Finite 1%Q)) [1; 0]
          {| ParallelLayerAligner.num_images := 2;
             ParallelLayerAligner.shifts := [];
             ParallelLayerAligner.errors := [] |} = ok self'
        ∧ ParallelLayerAligner.num_images self' = 2
        ∧ length (ParallelLayerAligner.shifts self') = 2
        ∧ length (ParallelLayerAligner.errors self') = 2
        ∧ ParallelLayerAligner.shifts self' !! i
            = Some (inject_Z (Z.of_nat i), 0%Q)
        ∧ ParallelLayerAligner.errors self' !! i = Some (Finite 1%Q)).
Proof.
  apply (ordered_results_by_index
           (λ a : nat, ok (a * a)) (λ a, a * a) [3; 5; 7] [2; 0; 1]
           (λ i, ok ((inject_Z (Z.of_nat i), 0%Q), Finite 1%Q))
           (λ i, ((inject_Z (Z.of_nat i), 0%Q), Finite 1%Q))
           {| ParallelLayerAligner.num_images := 2;
              ParallelLayerAligner.shifts := [];
              ParallelLayerAligner.errors := [] |} [1; 0]).
  - intros a _. reflexivity.
  - simpl. apply (Permutation_cons_append [0; 1] 2).
  - intros i _. reflexivity.
  - simpl. apply perm_swap.
Defined.

(** A task that raises: the ordered executor re-raises it when its future
    is reached, the unordered one never looks at it. *)
Example ordered_executor_reraises :
  Executor.execute_parallel_with_ordered_results
    (λ a : nat, if decide (a = 5) then raise (TaskError 1) else ok (a * a))
    [3; 5; 7] [2; 0; 1]
  = raise (TaskError 1).
Proof. reflexivity. Qed.

(** The task for 5 notes its argument and then raises: the note stays, the
    exception is not seen. *)
Example unordered_executor_does_not_observe :
  Executor.execute_parallel
    (λ (a : nat) (st : list nat),
       if decide (a = 5) then (raise (TaskError 1), a :: st)
       else (ok tt, a :: st))
    [3; 5; 7] [2; 0; 1] []
  = [5; 3; 7].
Proof. reflexivity. Qed.

(** ** Mosaic assembler *)

Section MosaicFacts.

Import ParallelMosaic.

(** The row-reversal loop, stopped after [k] rows. *)
Lemma flip_x_prefix (out : list (list Z)) (k : nat) :
  k ≤ length out →
  foldl reverse_row out (seq 0 k) = (reverse <$> take k out) ++ drop k out.
Proof.
  induction k as [|k IH]; intros Hk.
  - by rewrite take_0, drop_0.
  - rewrite seq_S, foldl_snoc, IH by lia. cbn [Nat.add].
    assert (is_Some (out !! k)) as [r Hr] by (apply lookup_lt_is_Some_2; lia).
    assert (length (reverse <$> take k out) = k) as Hlen
      by (rewrite length_fmap, length_take; lia).
    unfold reverse_row.
    replace (((reverse <$> take k out) ++ drop k out) !! k) with (Some r).
    2:{ rewrite lookup_app_r by lia. rewrite Hlen, Nat.sub_diag.
        rewrite lookup_drop, Nat.add_0_r. done. }
    rewrite insert_app_r_alt by lia. rewrite Hlen, Nat.sub_diag.
    rewrite (drop_S _ r) by done. cbn [insert list_insert].
    rewrite (take_S_r _ _ r) by done. rewrite fmap_app. cbn [fmap list_fmap].
    by rewrite <- app_assoc.
Qed.

Lemma flip_x_reverses_rows (out : list (list Z)) :
  flip_x out = reverse <$> out.
Proof.
  unfold flip_x. rewrite flip_x_prefix by done.
  by rewrite firstn_all, drop_all, app_nil_r.
Qed.

(** The row-swapping loop, stopped after [k] swaps: the first [k] and the
    last [k] rows are exchanged end for end, the rows between are
    untouched. *)
Lemma flip_y_prefix (out : list (list Z)) (k : nat) :
  k ≤ length out / 2 →
  length (foldl swap_rows out (seq 0 k)) = length out
  ∧ ∀ i, i < length out →
      foldl swap_rows out (seq 0 k) !! i
      = if decide (i < k ∨ length out - k ≤ i)
        then out !! (length out - 1 - i)
        else out !! i.
Proof.
  assert (Hdiv : 2 * (length out / 2) ≤ length out)
    by apply Nat.Div0.mul_div_le.
  induction k as [|k IH]; intros Hk.
  - split; [done|]. intros i Hi. cbn [seq foldl]. case_decide; [lia|done].
  - destruct IH as [Hlen Hlk]; [lia|].
    rewrite seq_S, foldl_snoc. cbn [Nat.add].
    set (cur := foldl swap_rows out (seq 0 k)) in *.
    unfold swap_rows. rewrite Hlen.
    set (j := length out - 1 - k).
    assert (k < j) by (unfold j; lia).
    assert (j < length out) by (unfold j; lia).
    rewrite (Hlk j), (Hlk k) by lia.
    rewrite (decide_False (P := j < k ∨ _)) by (unfold j; lia).
    rewrite (decide_False (P := k < k ∨ _)) by lia.
    destruct (lookup_lt_is_Some_2 out j) as [a Ha]; [lia|].
    destruct (lookup_lt_is_Some_2 out k) as [b Hb]; [lia|].
    rewrite Ha, Hb. split; [by rewrite !length_insert|].
    intros i Hi.
    destruct (decide (i = j)) as [->|Hij].
    + rewrite list_lookup_insert_eq by (rewrite length_insert; lia).
      rewrite decide_True by (unfold j; lia).
      rewrite <- Hb. f_equal. unfold j. lia.
    + rewrite list_lookup_insert_ne by done.
      destruct (decide (i = k)) as [->|Hik].
      * rewrite list_lookup_insert_eq by lia.
        rewrite decide_True by lia. done.
      * rewrite list_lookup_insert_ne by done. rewrite Hlk by done.
        repeat case_decide; try done; unfold j in *; lia.
Qed.

Lemma flip_y_reverses_order (out : list (list Z)) :
  flip_y out = reverse out.
Proof.
  unfold flip_y.
  destruct (flip_y_prefix out (length out / 2)) as [Hlen Hlk]; [done|].
  assert (Hdiv : 2 * (length out / 2) ≤ length out)
    by apply Nat.Div0.mul_div_le.
  assert (Hmod : length out < 2 * (length out / 2) + 2).
  { pose proof (Nat.div_mod_eq (length out) 2) as E.
    pose proof (Nat.mod_upper_bound (length out) 2). lia. }
  apply list_eq. intros i.
  destruct (decide (i < length out)) as [Hi|Hi].
  - rewrite Hlk, reverse_lookup by done.
    case_decide.
    + f_equal. lia.
    + f_equal. lia.
  - rewrite !lookup_ge_None_2; [done| |]; rewrite ?length_reverse; lia.
Qed.

End MosaicFacts.

Section AssembleFacts.

Import ParallelMosaic.

Context {image position : Type}.

Variable read : Z → nat → image.

Variable correct_illumination : image → Z → image.

Variable paste : ndarray → image → position → ndarray.


(** C6.  The canvas [assemble_channel_parallel] returns is the one it
    returns with both flips off, with every row reversed if [flip_mosaic_x]
    is set and then the order of the rows reversed if [flip_mosaic_y] is
    set; the tiles are read, corrected and pasted exactly as with the flips
    off. *)
Theorem flips_apply_once_to_whole_canvas (self : Mosaic) (channel : Z)
    (positions : list position) (out : option ndarray) :
  let plain :=
    assemble_channel_parallel read correct_illumination paste
      (unflipped self) channel positions out in
  let flipped :=
    assemble_channel_parallel read correct_illumination paste
      self channel positions out in
  events flipped = events plain
  ∧ match returned plain with
    | inl e => returned flipped = raise e
    | inr canvas =>
        returned flipped
        = ok ((if flip_mosaic_y self then reverse_row_order else id)
                ((if flip_mosaic_x self then reverse_each_row else id) canvas))
    end.
Proof.
  cbn zeta. unfold assemble_channel_parallel, unflipped.
  cbn [mosaic_shape flip_mosaic_x flip_mosaic_y].
  destruct out as [o|].
  - case_decide; [done|].
    destruct (paste_tiles _ _ _ _ _ _ _) as [canvas evs].
    cbn. split; [done|].
    unfold reverse_row_order, reverse_each_row, with_rows.
    destruct (flip_mosaic_x self), (flip_mosaic_y self);
      cbn [rows ncols id];
      rewrite ?flip_x_reverses_rows, ?flip_y_reverses_order;
      by destruct canvas.
  - destruct (paste_tiles _ _ _ _ _ _ _) as [canvas evs].
    cbn. split; [done|].
    unfold reverse_row_order, reverse_each_row, with_rows.
    destruct (flip_mosaic_x self), (flip_mosaic_y self);
      cbn [rows ncols id];
      rewrite ?flip_x_reverses_rows, ?flip_y_reverses_order;
      by destruct canvas.
Qed.

End AssembleFacts.


(** A three-row canvas: the vertical flip leaves the middle row in place. *)
Example flip_y_odd_rows :
  ParallelMosaic.flip_y [[1; 2]; [3; 4]; [5; 6]]%Z = [[5; 6]; [3; 4]; [1; 2]]%Z
  ∧ ParallelMosaic.flip_x [[1; 2]; [3; 4]; [5; 6]]%Z = [[2; 1]; [4; 3]; [6; 5]]%Z.
Proof. split; reflexivity. Qed.

(** ** Edge aligner: threshold computation *)

Section ThresholdFacts.

Import ParallelEdgeAligner.

Local Open Scope Z_scope.

Variable intersection : Z → Z → option Z → Intersection.

Variable read : Z → Z → list (list Z).

Variable utils_register : list (list Z) → list (list Z) → Q → shift * score.

Variable percentile : list score → Q → score.

Variable seeded : nat → Z.

Variable entropy : nat → Z.

Lemma foldl_max_ge (xs : list Z) (x : Z) :
  x ≤ foldl Z.max x xs ∧ ∀ y, y ∈ xs → y ≤ foldl Z.max x xs.
Proof.
  revert x. induction xs as [|z xs IH]; intros x; cbn [foldl].
  - split; [lia|]. intros y Hy. by apply elem_of_nil in Hy.
  - destruct (IH (Z.max x z)) as [H1 H2]. split; [lia|].
    intros y Hy. apply elem_of_cons in Hy as [->|Hy]; [lia|by apply H2].
Qed.

Lemma foldl_max_elem (xs : list Z) (x : Z) :
  foldl Z.max x xs ∈ x :: xs.
Proof.
  revert x. induction xs as [|z xs IH]; intros x; cbn [foldl].
  - by left.
  - specialize (IH (Z.max x z)). apply elem_of_cons in IH as [IH|IH].
    + rewrite IH. destruct (Z.max_spec x z) as [[_ ->]|[_ ->]].
      * right. by left.
      * by left.
    + right. by right.
Qed.

Lemma array_max_spec (a : list Z) (w : Z) :
  array_max a = Some w → w ∈ a ∧ ∀ y, y ∈ a → y ≤ w.
Proof.
  destruct a as [|x xs]; [done|]. cbn [array_max]. intros [= <-].
  split; [apply foldl_max_elem|].
  intros y Hy. destruct (foldl_max_ge xs x) as [H1 H2].
  apply elem_of_cons in Hy as [->|Hy]; [done|by apply H2].
Qed.

Lemma strip_width_defined (self : EdgeAligner) :
  (1 < length (edges self))%nat → ∃ w, strip_width intersection self = Some w.
Proof.
  unfold strip_width, widths. destruct (edges self) as [|e es]; cbn; [lia|].
  eauto.
Qed.

(** *** The random draws *)

Lemma randint2_pos (high : Z) (w : world) :
  0 < high →
  ∃ a b, randint2 high w
         = (ok (a, b),
            {| rng_source := rng_source w; rng_pos := S (S (rng_pos w));
               log := log w |}).
Proof.
  intros Hh. unfold randint2.
  destruct (Z.leb_spec high 0); [lia|]. eauto.
Qed.

Lemma randint2_nonpos (high : Z) (w : world) :
  high ≤ 0 → randint2 high w = (raise ValueError, w).
Proof.
  intros Hh. unfold randint2. destruct (Z.leb_spec high 0); [done|lia].
Qed.

(** *** The retry loop *)

Lemma retry_total (self : EdgeAligner) (wd max_offset : Z) :
  0 < num_images (metadata self) → 0 < max_offset →
  ∀ (tries : nat) (prev : option sample) (w : world),
    ∃ draws found w',
      retry intersection self wd max_offset tries prev w
        = (ok (from_option Some prev (last draws), found), w')
      ∧ log w' = log w ++ (Draw <$> draws)
      ∧ rng_source w' = rng_source w
      ∧ (length draws ≤ tries)%nat
      ∧ (if found
         then ∃ earlier s, draws = earlier ++ [s]
                ∧ Forall (λ d, non_overlapping intersection self wd d = false) earlier
                ∧ non_overlapping intersection self wd s = true
         else length draws = tries
              ∧ Forall (λ d, non_overlapping intersection self wd d = false) draws).
Proof.
  intros Hn Hm tries. induction tries as [|k IH]; intros prev w.
  - exists [], false, w. cbn. rewrite app_nil_r. repeat split; done.
  - cbn [retry]. unfold bind at 1.
    destruct (randint2_pos (num_images (metadata self)) w Hn) as (t1 & t2 & ->).
    unfold bind at 1.
    match goal with |- context [randint2 max_offset ?w1] =>
      destruct (randint2_pos max_offset w1 Hm) as (o1 & o2 & ->) end.
    cbn [rng_source rng_pos log]. unfold bind at 1, tell at 1.
    cbn [rng_source rng_pos log].
    destruct (non_overlapping intersection self wd (t1, t2, o1, o2)) eqn:Hok.
    + eexists [(t1, t2, o1, o2)], true, _. unfold ret. cbn.
      repeat split; [lia|].
      exists [], (t1, t2, o1, o2). repeat split; done.
    + match goal with |- context [retry _ _ _ _ k ?p ?w1] =>
        destruct (IH p w1) as (draws & found & w' & -> & Hlog & Hsrc & Hlen & Hf) end.
      cbn [rng_source rng_pos log] in Hlog, Hsrc.
      exists ((t1, t2, o1, o2) :: draws), found, w'.
      split.
      { rewrite last_cons. by destruct (last draws). }
      split; [by rewrite Hlog, <- app_assoc|].
      split; [done|]. split; [cbn; lia|].
      destruct found.
      * destruct Hf as (earlier & s & -> & Hall & Hs).
        exists ((t1, t2, o1, o2) :: earlier), s. repeat split; [|done].
        by constructor.
      * destruct Hf as [Hl Hall]. split; [cbn; lia|]. by constructor.
Qed.

(** A draw from an empty range raises in the first iteration. *)
Lemma retry_raises (self : EdgeAligner) (wd max_offset : Z) (k : nat)
    (prev : option sample) (w : world) :
  num_images (metadata self) ≤ 0 ∨ max_offset ≤ 0 →
  ∃ w', retry intersection self wd max_offset (S k) prev w
          = (raise ValueError, w')
        ∧ log w' = log w.
Proof.
  intros Hempty. cbn [retry]. unfold bind at 1.
  destruct (Z.leb_spec (num_images (metadata self)) 0) as [Hn|Hn].
  - rewrite randint2_nonpos by done. eauto.
  - destruct (randint2_pos (num_images (metadata self)) w Hn) as (t1 & t2 & ->).
    unfold bind at 1. rewrite randint2_nonpos by lia. eauto.
Qed.

(** *** The sampling loop *)

Lemma sample_loop_total (self : EdgeAligner) (wd max_offset : Z) :
  0 < num_images (metadata self) → 0 < max_offset →
  ∀ (n : nat) (prev : option sample) (w : world),
    ∃ rounds samples w',
      sample_loop intersection self wd max_offset n prev w = (ok samples, w')
      ∧ length samples = n
      ∧ length rounds = n
      ∧ log w' = log w ++ concat (zip_with (round_events intersection self wd)
                                    rounds samples)
      ∧ Forall2 (round_ok intersection self wd) rounds samples.
Proof.
  intros Hn Hm n. induction n as [|k IH]; intros prev w.
  - exists [], [], w. cbn. rewrite app_nil_r. repeat split; constructor.
  - cbn [sample_loop]. unfold bind at 1.
    destruct (retry_total self wd max_offset Hn Hm max_tries prev w)
      as (draws & found & w1 & -> & Hlog & _ & Hlen & Hf).
    destruct found.
    + destruct Hf as (earlier & s & -> & Hall & Hs).
      rewrite last_snoc. cbn [from_option]. unfold bind at 1, ret at 1.
      unfold bind at 1.
      destruct (IH (Some s) w1) as (rounds & samples & w' & -> & Hl & Hr & Hlog' & Hok).
      exists (earlier :: rounds), (s :: samples), w'. unfold ret.
      split; [done|]. split; [cbn; lia|]. split; [cbn; lia|]. split.
      * rewrite Hlog', Hlog. cbn [zip_with concat]. unfold round_events at 2.
        rewrite Hs, app_nil_r. by rewrite <- app_assoc.
      * constructor; [|done]. split; [done|].
        rewrite length_app in Hlen. cbn in Hlen. split; [lia|congruence].
    + destruct Hf as [Hl Hall].
      destruct draws as [|s earlier _] using rev_ind; [done|].
      rewrite last_snoc. cbn [from_option]. unfold bind at 1, tell at 1.
      unfold bind at 1.
      apply Forall_app in Hall as [Hall Hs].
      apply (proj1 (Forall_singleton _ _)) in Hs.
      match goal with |- context [sample_loop _ _ _ _ k ?p ?w2] =>
        destruct (IH p w2) as (rounds & samples & w' & -> & Hl' & Hr & Hlog' & Hok)
      end.
      cbn [log] in Hlog'.
      exists (earlier :: rounds), (s :: samples), w'. unfold ret.
      split; [done|]. split; [cbn; lia|]. split; [cbn; lia|]. split.
      * rewrite Hlog', Hlog. cbn [zip_with concat]. unfold round_events at 2.
        rewrite Hs. by rewrite <- !app_assoc.
      * constructor; [|done]. split; [done|].
        rewrite length_app in Hl. cbn in Hl. split; [lia|]. intros _. lia.
Qed.

Lemma sample_loop_raises (self : EdgeAligner) (wd max_offset : Z) (k : nat)
    (prev : option sample) (w : world) :
  num_images (metadata self) ≤ 0 ∨ max_offset ≤ 0 →
  ∃ w', sample_loop intersection self wd max_offset (S k) prev w
          = (raise ValueError, w')
        ∧ log w' = log w.
Proof.
  intros Hempty. cbn [sample_loop]. unfold bind at 1.
  destruct (retry_raises self wd max_offset 99 prev w Hempty) as (w' & Hr & Hlog).
  change max_tries with 100%nat. rewrite Hr. eauto.
Qed.

(** C7, as amended.  When the tile count and the offset range
    [size[0] - w] are positive, the sampling loop returns, whatever the
    generator draws: it yields exactly [n] pairs; each pair is the last of
    at least one and at most [max_tries] = 100 draws, every earlier draw of
    its round having failed the non-overlap test; and a kept pair that
    itself fails the test is the hundredth draw of its round and is
    followed by one warning. *)
Theorem sampling_bounded_retries (self : EdgeAligner) (wd max_offset : Z)
    (n : nat) (prev : option sample) (w : world) :
  0 < num_images (metadata self) → 0 < max_offset →
  ∃ rounds samples w',
    sample_loop intersection self wd max_offset n prev w = (ok samples, w')
    ∧ length samples = n
    ∧ length rounds = n
    ∧ log w' = log w ++ concat (zip_with (round_events intersection self wd)
                                  rounds samples)
    ∧ Forall2 (round_ok intersection self wd) rounds samples.
Proof. intros Hn Hm. by apply sample_loop_total. Qed.

(** *** Threshold computation as a whole *)

Lemma num_samples_cases (self : EdgeAligner) :
  (8 < num_distant_pairs self → num_samples self = 1000)
  ∧ (num_distant_pairs self ≤ 8 →
       num_samples self = (num_distant_pairs self + 1) * 10
       ∧ num_samples self < 1000).
Proof.
  unfold num_samples.
  destruct (Z.gtb_spec (num_distant_pairs self) 8); split; intros; lia.
Qed.

Lemma num_samples_pos (self : EdgeAligner) :
  0 ≤ num_distant_pairs self → 10 ≤ num_samples self.
Proof.
  unfold num_samples.
  destruct (Z.gtb_spec (num_distant_pairs self) 8); lia.
Qed.

Lemma compute_threshold_total (order : list nat) (self : EdgeAligner) (w : Z) :
  (1 < length (edges self))%nat →
  strip_width intersection self = Some w →
  0 < num_images (metadata self) →
  w < fst (size (metadata self)) →
  0 ≤ num_samples self →
  order ≡ₚ seq 0 (Z.to_nat (num_samples self)) →
  ∃ rounds samples,
    compute_threshold intersection read utils_register percentile seeded entropy
        order self
      = (ok (set_threshold self (register read utils_register self w <$> samples)
               (percentile (register read utils_register self w <$> samples)
                  (false_positive_ratio self * 100)%Q)),
         concat (zip_with (round_events intersection self w) rounds samples)
         ++ (Register w <$> samples))
    ∧ length samples = Z.to_nat (num_samples self)
    ∧ length rounds = Z.to_nat (num_samples self)
    ∧ Forall2 (round_ok intersection self w) rounds samples.
Proof.
  intros Hedges Hw Hn Hlt Hsamples Hperm. unfold compute_threshold.
  destruct (Z.leb_spec (Z.of_nat (length (edges self))) 1); [lia|].
  rewrite Hw. destruct (Z.ltb_spec (num_samples self) 0); [lia|].
  cbv zeta. unfold bind. cbv beta.
  match goal with |- context [sample_loop _ _ _ ?mo ?n ?p ?w0] =>
    destruct (sample_loop_total self w mo Hn ltac:(lia) n p w0)
      as (rounds & samples & w' & -> & Hl & Hr & Hlog & Hok) end.
  cbn [log] in Hlog. unfold tell, ret. cbn [log].
  rewrite (ordered_results_total _ (register read utils_register self w)); [|done|by rewrite Hl].
  rewrite mapM_id_Some. exists rounds, samples. by rewrite Hlog.
Qed.

Lemma compute_threshold_raises (order : list nat) (self : EdgeAligner) (w : Z) :
  (1 < length (edges self))%nat →
  strip_width intersection self = Some w →
  0 < num_samples self →
  num_images (metadata self) ≤ 0 ∨ fst (size (metadata self)) - w ≤ 0 →
  compute_threshold intersection read utils_register percentile seeded entropy
      order self
    = (raise ValueError, []).
Proof.
  intros Hedges Hw Hsamples Hempty. unfold compute_threshold.
  destruct (Z.leb_spec (Z.of_nat (length (edges self))) 1); [lia|].
  rewrite Hw. destruct (Z.ltb_spec (num_samples self) 0); [lia|].
  cbv zeta. unfold bind. cbv beta.
  destruct (Z.to_nat (num_samples self)) as [|k] eqn:Hk; [lia|].
  match goal with |- context [sample_loop _ _ _ ?mo (S k) ?p ?w0] =>
    destruct (sample_loop_raises self w mo k p w0 Hempty) as (w' & -> & Hlog)
  end.
  by rewrite Hlog.
Qed.

Lemma filter_register_events (w : Z) (l : list sample) :
  filter (λ ev, is_register ev = true) (Register w <$> l) = Register w <$> l.
Proof.
  induction l as [|s0 ss IH]; [done|]. cbn [fmap list_fmap].
  rewrite filter_cons_True by done. f_equal. exact IH.
Qed.

Lemma filter_draw_events (l : list sample) :
  filter (λ ev, is_register ev = true) (Draw <$> l) = [].
Proof.
  induction l as [|s0 ss IH]; [done|]. cbn [fmap list_fmap].
  rewrite filter_cons_False by done. exact IH.
Qed.

Lemma filter_sampling_events (self : EdgeAligner) (w : Z)
    (rs : list (list sample)) (ss : list sample) :
  filter (λ ev, is_register ev = true)
    (concat (zip_with (round_events intersection self w) rs ss)) = [].
Proof.
  revert ss. induction rs as [|r rs IH]; intros [|s0 ss];
    cbn [zip_with concat]; try done.
  rewrite filter_app, IH, app_nil_r. unfold round_events.
  rewrite filter_app, filter_draw_events.
  by destruct (non_overlapping intersection self w s0).
Qed.

(** C2.  With at most one edge in the adjacency graph, [compute_threshold]
    returns without raising, the threshold is [np.inf], which no error score
    exceeds, the negative-error sample is empty, and no strip is drawn and
    no registration submitted; the graph and the alignment records are left
    as they were. *)
Theorem few_edges_accept_everything (order : list nat) (self : EdgeAligner) :
  (length (edges self) ≤ 1)%nat →
  ∃ self',
    compute_threshold intersection read utils_register percentile seeded entropy
        order self = (ok self', [])
    ∧ max_error self' = Some Inf
    ∧ (∀ s, score_gtb s Inf = false)
    ∧ errors_negative_sampled self' = Some []
    ∧ edges self' = edges self
    ∧ _cache self' = _cache self.
Proof.
  intros Hedges. exists (set_threshold self [] Inf). unfold compute_threshold.
  destruct (Z.leb_spec (Z.of_nat (length (edges self))) 1); [|lia].
  repeat split. by intros [].
Qed.

(** C3, as amended.  With more than one edge, the strip width [w] is the
    largest, over the graph's edges, of each edge's smaller intersection
    dimension: it is the smaller dimension of some edge and no edge's
    smaller dimension exceeds it. *)
Theorem strip_width_is_largest_min_dimension (self : EdgeAligner) :
  (1 < length (edges self))%nat →
  ∃ w, strip_width intersection self = Some w
    ∧ (∃ e, e ∈ edges self ∧ min_dimension intersection e = w)
    ∧ (∀ e, e ∈ edges self → min_dimension intersection e ≤ w).
Proof.
  intros Hedges. destruct (strip_width_defined self Hedges) as [w Hw].
  exists w. split; [done|]. apply array_max_spec in Hw as [Hin Hmax].
  unfold widths in *. split.
  - apply list_elem_of_fmap in Hin as (e & -> & He). eauto.
  - intros e He. apply Hmax. apply list_elem_of_fmap. eauto.
Qed.

(** C8.  In [compute_threshold] for a graph with more than one edge, the
    number [n] of sampled strip pairs is 1000 when the count of non-adjacent
    tile pairs [num_tiles * (num_tiles - 1) // 2 - len(edges)] exceeds 8 and
    [(num_distant_pairs + 1) * 10], which is less than 1000, otherwise; and
    whenever the draws are possible (positive tile count, strip shorter than
    the tile, no more edges than tile pairs) threshold computation returns
    with exactly [n] pairs sampled, submitted for registration and scored. *)
Theorem sample_count_by_distant_pairs (order : list nat) (self : EdgeAligner) :
  (1 < length (edges self))%nat →
  (8 < num_distant_pairs self → num_samples self = 1000)
  ∧ (num_distant_pairs self ≤ 8 →
       num_samples self = (num_distant_pairs self + 1) * 10
       ∧ num_samples self < 1000)
  ∧ ∀ w,
      strip_width intersection self = Some w →
      0 < num_images (metadata self) →
      w < fst (size (metadata self)) →
      0 ≤ num_distant_pairs self →
      order ≡ₚ seq 0 (Z.to_nat (num_samples self)) →
      ∃ self' evs errs,
        compute_threshold intersection read utils_register percentile seeded entropy
            order self = (ok self', evs)
        ∧ errors_negative_sampled self' = Some errs
        ∧ Z.of_nat (length errs) = num_samples self
        ∧ Z.of_nat (length (filter (λ ev, is_register ev = true) evs))
          = num_samples self.
Proof.
  intros Hedges.
  split; [apply num_samples_cases|]. split; [apply num_samples_cases|].
  intros w Hw Hn Hlt Hpairs Hperm.
  pose proof (num_samples_pos self Hpairs) as Hpos.
  destruct (compute_threshold_total order self w)
    as (rounds & samples & -> & Hl & Hr & Hok); try done; [lia|].
  eexists _, _, _. split; [reflexivity|]. split; [reflexivity|].
  split; [rewrite length_fmap; lia|].
  rewrite filter_app, length_app, filter_sampling_events.
  rewrite filter_register_events. cbn [length].
  rewrite length_fmap. lia.
Qed.

(** C10.  For a graph with more than one edge (and at most as many edges as
    there are tile pairs), [compute_threshold] returns only if the strip
    width [w] is strictly smaller than the tile's first-axis size: when
    [size[0] - w <= 0], as it is as soon as one edge's smaller intersection
    dimension reaches the tile height, the first draw raises [ValueError]
    and nothing is sampled or registered. *)
Theorem threshold_needs_strip_shorter_than_tile (order : list nat)
    (self : EdgeAligner) (w : Z) :
  (1 < length (edges self))%nat →
  0 ≤ num_distant_pairs self →
  strip_width intersection self = Some w →
  ((∃ e, e ∈ edges self
         ∧ fst (size (metadata self)) ≤ min_dimension intersection e) →
     fst (size (metadata self)) - w ≤ 0)
  ∧ (fst (size (metadata self)) - w ≤ 0 →
       compute_threshold intersection read utils_register percentile seeded entropy
           order self = (raise ValueError, []))
  ∧ (∀ self' evs,
       compute_threshold intersection read utils_register percentile seeded entropy
           order self = (ok self', evs) →
       w < fst (size (metadata self))).
Proof.
  intros Hedges Hpairs Hw.
  pose proof (num_samples_pos self Hpairs) as Hpos.
  assert (Hraise : fst (size (metadata self)) - w ≤ 0 →
    compute_threshold intersection read utils_register percentile seeded entropy
        order self = (raise ValueError, [])).
  { intros Hle. apply (compute_threshold_raises order self w); auto; lia. }
  split; [|split; [done|]].
  - intros (e & He & Hfull).
    pose proof Hw as Hw'. apply array_max_spec in Hw' as [_ Hmax].
    assert (min_dimension intersection e ≤ w).
    { apply Hmax. unfold widths. apply list_elem_of_fmap. eauto. }
    lia.
  - intros self' evs Hrun.
    destruct (Z.lt_ge_cases w (fst (size (metadata self)))) as [|Hge]; [done|].
    rewrite Hraise in Hrun by lia. done.
Qed.

End ThresholdFacts.

(** *** The theorems on concrete layers *)

Lemma few_edges_accept_everything_witness :
  ∃ self',
    ParallelEdgeAligner.compute_threshold
        (Fixtures.row_intersection Fixtures.narrow_bands)
        Fixtures.toy_read Fixtures.toy_register Fixtures.toy_percentile
        Fixtures.raw_draws Fixtures.raw_draws
        [] (Fixtures.row_layer 2 [(0, 1)%Z]) = (ok self', [])
    ∧ ParallelEdgeAligner.max_error self' = Some Inf
    ∧ (∀ s, score_gtb s Inf = false)
    ∧ ParallelEdgeAligner.errors_negative_sampled self' = Some []
    ∧ ParallelEdgeAligner.edges self' = [(0, 1)%Z]
    ∧ ParallelEdgeAligner._cache self' = ∅.
Proof.
  apply (few_edges_accept_everything
           (Fixtures.row_intersection Fixtures.narrow_bands)
           Fixtures.toy_read Fixtures.toy_register Fixtures.toy_percentile
           Fixtures.raw_draws Fixtures.raw_draws
           [] (Fixtures.row_layer 2 [(0, 1)%Z])).
  simpl. lia.
Defined.

(** C3 as stated fails: with overlap bands of 10 and 20 pixels the strip
    width is 20, the spec's smallest overlap dimension is 10. *)
Lemma strip_width_is_not_smallest_dimension :
  (1 < length (ParallelEdgeAligner.edges Fixtures.three_tiles))
  ∧ ParallelEdgeAligner.strip_width
      (Fixtures.row_intersection Fixtures.narrow_bands) Fixtures.three_tiles
    = Some 20%Z
  ∧ ParallelEdgeAligner.strip_width_spec
      (Fixtures.row_intersection Fixtures.narrow_bands) Fixtures.three_tiles
    = Some 10%Z
  ∧ ParallelEdgeAligner.strip_width
      (Fixtures.row_intersection Fixtures.narrow_bands) Fixtures.three_tiles
    ≠ ParallelEdgeAligner.strip_width_spec
        (Fixtures.row_intersection Fixtures.narrow_bands) Fixtures.three_tiles.
Proof.
  split; [simpl; lia|]. split; [reflexivity|]. split; [reflexivity|].
  vm_compute. congruence.
Qed.

Lemma strip_width_is_largest_min_dimension_witness :
  ∃ w, ParallelEdgeAligner.strip_width
         (Fixtures.row_intersection Fixtures.narrow_bands)
         Fixtures.three_tiles = Some w
    ∧ (∃ e, e ∈ ParallelEdgeAligner.edges Fixtures.three_tiles
          ∧ ParallelEdgeAligner.min_dimension
              (Fixtures.row_intersection Fixtures.narrow_bands) e = w)
    ∧ (∀ e, e ∈ ParallelEdgeAligner.edges Fixtures.three_tiles →
          (ParallelEdgeAligner.min_dimension
             (Fixtures.row_intersection Fixtures.narrow_bands) e ≤ w)%Z).
Proof.
  apply (strip_width_is_largest_min_dimension
           (Fixtures.row_intersection Fixtures.narrow_bands)
           Fixtures.three_tiles).
  simpl. lia.
Defined.

(** C7 as stated fails: when the overlap bands are as wide as the tile the
    strip is as high as the tile, the offset range is empty, and the
    sampling loop raises in its first iteration, after the tile pair and
    before any offset is drawn. *)
Lemma sampling_raises_on_empty_offset_range :
  let world0 :=
    {| ParallelEdgeAligner.rng_source := Fixtures.raw_draws;
       ParallelEdgeAligner.rng_pos := 0;
       ParallelEdgeAligner.log := [] |} in
  ParallelEdgeAligner.strip_width
      (Fixtures.row_intersection Fixtures.full_bands) Fixtures.three_tiles
    = Some 100%Z
  ∧ ParallelEdgeAligner.num_samples Fixtures.three_tiles = 20%Z
  ∧ ParallelEdgeAligner.sample_loop
      (Fixtures.row_intersection Fixtures.full_bands) Fixtures.three_tiles
      100 (100 - 100) 20 None world0
    = (raise ValueError,
       {| ParallelEdgeAligner.rng_source := Fixtures.raw_draws;
          ParallelEdgeAligner.rng_pos := 2;
          ParallelEdgeAligner.log := [] |})
  ∧ ParallelEdgeAligner.compute_threshold
      (Fixtures.row_intersection Fixtures.full_bands)
      Fixtures.toy_read Fixtures.toy_register Fixtures.toy_percentile
      Fixtures.raw_draws Fixtures.raw_draws (seq 0 20) Fixtures.three_tiles
    = (raise ValueError, []).
Proof. repeat split; reflexivity. Qed.

Lemma sampling_bounded_retries_witness :
  let world0 :=
    {| ParallelEdgeAligner.rng_source := Fixtures.raw_draws;
       ParallelEdgeAligner.rng_pos := 0;
       ParallelEdgeAligner.log := [] |} in
  ∃ rounds samples w',
    ParallelEdgeAligner.sample_loop
        (Fixtures.row_intersection Fixtures.narrow_bands) Fixtures.three_tiles
        20 80 20 None world0 = (ok samples, w')
    ∧ length samples = 20
    ∧ length rounds = 20
    ∧ ParallelEdgeAligner.log w'
      = ParallelEdgeAligner.log world0
        ++ concat (zip_with
                     (ParallelEdgeAligner.round_events
                        (Fixtures.row_intersection Fixtures.narrow_bands)
                        Fixtures.three_tiles 20)
                     rounds samples)
    ∧ Forall2
        (ParallelEdgeAligner.round_ok
           (Fixtures.row_intersection Fixtures.narrow_bands)
           Fixtures.three_tiles 20)
        rounds samples.
Proof.
  intros world0.
  apply (sampling_bounded_retries
           (Fixtures.row_intersection Fixtures.narrow_bands)
           Fixtures.three_tiles 20 80 20 None world0).
  - reflexivity.
  - reflexivity.
Defined.

Lemma sample_count_by_distant_pairs_witness :
  let self := Fixtures.three_tiles in
  ParallelEdgeAligner.num_distant_pairs self = 1%Z
  ∧ ParallelEdgeAligner.num_samples self = 20%Z
  ∧ ∃ self' evs errs,
      ParallelEdgeAligner.compute_threshold
          (Fixtures.row_intersection Fixtures.narrow_bands)
          Fixtures.toy_read Fixtures.toy_register Fixtures.toy_percentile
          Fixtures.raw_draws Fixtures.raw_draws (seq 0 20) self
        = (ok self', evs)
      ∧ ParallelEdgeAligner.errors_negative_sampled self' = Some errs
      ∧ Z.of_nat (length errs) = ParallelEdgeAligner.num_samples self
      ∧ Z.of_nat (length (filter
                            (λ ev, ParallelEdgeAligner.is_register ev = true)
                            evs))
        = ParallelEdgeAligner.num_samples self.
Proof.
  intros self.
  destruct (sample_count_by_distant_pairs
              (Fixtures.row_intersection Fixtures.narrow_bands)
              Fixtures.toy_read Fixtures.toy_register Fixtures.toy_percentile
              Fixtures.raw_draws Fixtures.raw_draws (seq 0 20) self)
    as (_ & Hfew & Hrun).
  - simpl. lia.
  - split; [reflexivity|]. split; [reflexivity|].
    apply (Hrun 20%Z).
    + reflexivity.
    + reflexivity.
    + reflexivity.
    + vm_compute. congruence.
    + reflexivity.
Defined.

(** Six tiles in a row leave ten non-adjacent pairs: 1000 samples. *)
Example six_tiles_thousand_samples :
  ParallelEdgeAligner.num_distant_pairs Fixtures.six_tiles = 10%Z
  ∧ ParallelEdgeAligner.num_samples Fixtures.six_tiles = 1000%Z.
Proof. split; reflexivity. Qed.

Lemma threshold_needs_strip_shorter_than_tile_witness :
  let self := Fixtures.three_tiles in
  let its := Fixtures.row_intersection Fixtures.full_bands in
  ((∃ e, e ∈ ParallelEdgeAligner.edges self
         ∧ (fst (ParallelEdgeAligner.size (ParallelEdgeAligner.metadata self))
            ≤ ParallelEdgeAligner.min_dimension its e)%Z) →
     (fst (ParallelEdgeAligner.size (ParallelEdgeAligner.metadata self)) - 100
      ≤ 0)%Z)
  ∧ ((fst (ParallelEdgeAligner.size (ParallelEdgeAligner.metadata self)) - 100
      ≤ 0)%Z →
       ParallelEdgeAligner.compute_threshold its
           Fixtures.toy_read Fixtures.toy_register Fixtures.toy_percentile
           Fixtures.raw_draws Fixtures.raw_draws (seq 0 20) self
         = (raise ValueError, []))
  ∧ (∀ self' evs,
       ParallelEdgeAligner.compute_threshold its
           Fixtures.toy_read Fixtures.toy_register Fixtures.toy_percentile
           Fixtures.raw_draws Fixtures.raw_draws (seq 0 20) self
         = (ok self', evs) →
       (100 < fst (ParallelEdgeAligner.size (ParallelEdgeAligner.metadata self)))%Z).
Proof.
  intros self its.
  apply (threshold_needs_strip_shorter_than_tile its
           Fixtures.toy_read Fixtures.toy_register Fixtures.toy_percentile
           Fixtures.raw_draws Fixtures.raw_draws (seq 0 20) self 100%Z).
  - simpl. lia.
  - vm_compute. congruence.
  - reflexivity.
Defined.

(** ** Edge aligner: registration of the edges *)

Lemma Qgtb_lt (a b : Q) : Qgtb a b = true ↔ (b < a)%Q.
Proof.
  unfold Qgtb, Qltb. rewrite negb_true_iff. split.
  - intros H. apply Qnot_le_lt. intros Hle.
    apply Qle_bool_iff in Hle. congruence.
  - intros H. destruct (Qle_bool a b) eqn:E; [|done].
    apply Qle_bool_iff in E. by apply Qlt_not_le in H.
Qed.

Lemma score_gtb_exceeds (a b : score) :
  score_gtb a b = true ↔ score_exceeds a b.
Proof.
  destruct a as [x|], b as [y|]; cbn; try done.
  apply (Qgtb_lt x y).
Qed.

Section RegisterFacts.

Import ParallelEdgeAligner.

Local Open Scope Z_scope.

Variable align : Z → Z → result (shift * score).

Lemma register_pair_lookup (e : Z * Z) (cache : gmap (Z * Z) (shift * score))
    (k : Z * Z) :
  snd (register_pair align e cache) !! k
  = if decide (k = edge_key e) then record_after align cache k
    else cache !! k.
Proof.
  unfold register_pair, record_after, record_of.
  destruct (cache !! edge_key e) as [r|] eqn:Hr.
  - cbn. destruct (decide (k = edge_key e)) as [->|]; [|done]. by rewrite Hr.
  - destruct (align (fst (edge_key e)) (snd (edge_key e))) as [err|r] eqn:Ha;
      cbn; destruct (decide (k = edge_key e)) as [->|Hk].
    + by rewrite Hr, Ha.
    + done.
    + by rewrite lookup_insert_eq, Hr, Ha.
    + by rewrite lookup_insert_ne.
Qed.

Lemma record_after_cached (cache : gmap (Z * Z) (shift * score)) (k : Z * Z)
    (r : shift * score) :
  cache !! k = Some r → record_after align cache k = Some r.
Proof. intros Hk. unfold record_after, record_of. by rewrite Hk. Qed.

(** Running [register_pair] for any edge does not change what a later run
    leaves under a key. *)
Lemma record_after_step (e : Z * Z) (cache : gmap (Z * Z) (shift * score))
    (k : Z * Z) :
  record_after align (snd (register_pair align e cache)) k
  = record_after align cache k.
Proof.
  unfold record_after at 1, record_of. rewrite register_pair_lookup.
  destruct (decide (k = edge_key e)) as [->|Hk].
  - destruct (record_after align cache (edge_key e)) as [r|] eqn:Hr; [done|].
    revert Hr. unfold record_after, record_of.
    by destruct (cache !! edge_key e);
      [|destruct (align (fst (edge_key e)) (snd (edge_key e)))].
  - unfold record_after, record_of. by destruct (cache !! k).
Qed.

(** Under every key the table holds, after any tasks, what it held or what
    [register_pair] leaves there. *)
Lemma run_tasks_lookup (args : list (Z * Z)) (order : list nat) :
  ∀ (cache : gmap (Z * Z) (shift * score)) k,
    Executor.run_tasks (register_pair align) args order cache !! k
      = cache !! k
    ∨ Executor.run_tasks (register_pair align) args order cache !! k
      = record_after align cache k.
Proof.
  induction order as [|i rest IH]; intros cache k; [by left|].
  cbn [Executor.run_tasks]. destruct (args !! i) as [e|]; [|apply IH].
  destruct (IH (snd (register_pair align e cache)) k) as [->| ->].
  - rewrite register_pair_lookup. destruct (decide (k = edge_key e)); auto.
  - right. apply record_after_step.
Qed.

Lemma run_tasks_keeps (args : list (Z * Z)) (order : list nat)
    (cache : gmap (Z * Z) (shift * score)) (k : Z * Z) (r : shift * score) :
  cache !! k = Some r →
  Executor.run_tasks (register_pair align) args order cache !! k = Some r.
Proof.
  intros Hk. destruct (run_tasks_lookup args order cache k) as [->| ->];
    [done|by apply record_after_cached].
Qed.

Lemma run_tasks_registers (args : list (Z * Z)) (order : list nat) :
  ∀ (cache : gmap (Z * Z) (shift * score)) i e,
    i ∈ order → args !! i = Some e →
    Executor.run_tasks (register_pair align) args order cache !! edge_key e
    = record_after align cache (edge_key e).
Proof.
  induction order as [|j rest IH]; intros cache i e Hi He.
  - by apply elem_of_nil in Hi.
  - cbn [Executor.run_tasks].
    destruct (decide (i ∈ rest)) as [Hrest|Hrest].
    + destruct (args !! j) as [e'|]; [|by eapply IH].
      rewrite (IH _ i e Hrest He). apply record_after_step.
    + apply elem_of_cons in Hi as [->|Hi]; [|done]. rewrite He.
      destruct (run_tasks_lookup args rest
                  (snd (register_pair align e cache)) (edge_key e)) as [->| ->].
      * rewrite register_pair_lookup. by rewrite decide_True.
      * apply record_after_step.
Qed.

Lemma run_tasks_only_edges (args : list (Z * Z)) (order : list nat) :
  ∀ (cache : gmap (Z * Z) (shift * score)) k,
    is_Some (Executor.run_tasks (register_pair align) args order cache !! k) →
    is_Some (cache !! k) ∨ ∃ e, e ∈ args ∧ edge_key e = k.
Proof.
  induction order as [|j rest IH]; intros cache k Hk; [by left|].
  cbn [Executor.run_tasks] in Hk.
  destruct (args !! j) as [e|] eqn:He; [|by apply IH].
  apply IH in Hk as [Hk|Hk]; [|by right].
  rewrite register_pair_lookup in Hk.
  destruct (decide (k = edge_key e)) as [->|]; [|by left].
  right. exists e. split; [|done]. by eapply list_elem_of_lookup_2.
Qed.

(** The test of the loop over the table, as a proposition. *)
Lemma rejected_iff (threshold : score) (max_shift : Q) (v : shift * score) :
  rejected threshold max_shift v = true ↔
  score_exceeds (snd v) threshold
  ∨ (max_shift < Qabs (fst (fst v)))%Q
  ∨ (max_shift < Qabs (snd (fst v)))%Q.
Proof.
  unfold rejected. rewrite !orb_true_iff, score_gtb_exceeds, !Qgtb_lt. done.
Qed.

(** C4.  When [register_all] returns, every graph edge whose registration
    returned (or whose record the table already held) has a record in the
    table, the table being keyed by edge, and the table has no key besides
    those it had and the edges'.  A record's error is [np.inf] where the
    error exceeds the threshold or the absolute value of a component of the
    shift exceeds [max_shift_pixels], and is the computed error otherwise;
    its shift is the computed shift in both cases. *)
Theorem every_edge_one_record_rejected_iff (order : list nat)
    (self : EdgeAligner) (threshold : score) :
  order ≡ₚ seq 0 (length (edges self)) →
  max_error self = Some threshold →
  ∃ self',
    register_all align order self = ok self'
    ∧ (∀ k, is_Some (_cache self' !! k) →
            is_Some (_cache self !! k) ∨ ∃ e, e ∈ edges self ∧ edge_key e = k)
    ∧ ∀ e computed,
        e ∈ edges self →
        record_of align (_cache self) (edge_key e) = ok computed →
        let exceeds :=
          score_exceeds (snd computed) threshold
          ∨ (max_shift_pixels self < Qabs (fst (fst computed)))%Q
          ∨ (max_shift_pixels self < Qabs (snd (fst computed)))%Q in
        ∃ final,
          _cache self' !! edge_key e = Some final
          ∧ fst final = fst computed
          ∧ (exceeds → snd final = Inf)
          ∧ (¬ exceeds → snd final = snd computed)
          ∧ (final = (fst computed, Inf) ∧ final ≠ computed → exceeds).
Proof.
  intros Hperm Hthr.
  set (table := registered align order self).
  assert (Hedge : ∀ e computed, e ∈ edges self →
            record_of align (_cache self) (edge_key e) = ok computed →
            table !! edge_key e = Some computed).
  { intros e computed He Hrec. apply list_elem_of_lookup in He as [i Hi].
    unfold table, registered, Executor.execute_parallel.
    rewrite (run_tasks_registers _ _ _ i e); [|
      rewrite Hperm; apply elem_of_seq; apply lookup_lt_Some in Hi; lia|done].
    unfold record_after. by rewrite Hrec. }
  exists (set_records self (snd <$> (snd <$> map_to_list table))
            (apply_threshold threshold (max_shift_pixels self) <$> table)).
  split.
  { unfold register_all. fold table. rewrite Hthr.
    case_decide as Hempty; [|done]. by rewrite Hempty, fmap_empty. }
  cbn [_cache set_records]. split.
  - intros k. rewrite lookup_fmap, fmap_is_Some. apply run_tasks_only_edges.
  - intros e computed He Hrec. cbn zeta.
    rewrite lookup_fmap, (Hedge e computed He Hrec). cbn.
    eexists. split; [done|]. unfold apply_threshold.
    destruct (rejected threshold (max_shift_pixels self) computed) eqn:Hr.
    + apply rejected_iff in Hr. cbn. repeat split; tauto.
    + assert (Hno : ¬ (score_exceeds (snd computed) threshold
                       ∨ (max_shift_pixels self < Qabs (fst (fst computed)))%Q
                       ∨ (max_shift_pixels self < Qabs (snd (fst computed)))%Q)).
      { intros H. apply rejected_iff in H. congruence. }
      repeat split; tauto.
Qed.

End RegisterFacts.

Lemma every_edge_one_record_rejected_iff_witness :
  let self := Fixtures.three_tiles_thresholded in
  let align := Fixtures.toy_align in
  ∃ self',
    ParallelEdgeAligner.register_all align [1; 0] self = ok self'
    ∧ (∀ k, is_Some (ParallelEdgeAligner._cache self' !! k) →
            is_Some (ParallelEdgeAligner._cache self !! k)
            ∨ ∃ e, e ∈ ParallelEdgeAligner.edges self
                   ∧ ParallelEdgeAligner.edge_key e = k)
    ∧ ∀ e computed,
        e ∈ ParallelEdgeAligner.edges self →
        ParallelEdgeAligner.record_of align
          (ParallelEdgeAligner._cache self)
          (ParallelEdgeAligner.edge_key e) = ok computed →
        let exceeds :=
          score_exceeds (snd computed) (Finite 2%Q)
          ∨ (ParallelEdgeAligner.max_shift_pixels self
             < Qabs (fst (fst computed)))%Q
          ∨ (ParallelEdgeAligner.max_shift_pixels self
             < Qabs (snd (fst computed)))%Q in
        ∃ final,
          ParallelEdgeAligner._cache self' !! ParallelEdgeAligner.edge_key e
            = Some final
          ∧ fst final = fst computed
          ∧ (exceeds → snd final = Inf)
          ∧ (¬ exceeds → snd final = snd computed)
          ∧ (final = (fst computed, Inf) ∧ final ≠ computed → exceeds).
Proof.
  intros self align.
  apply (every_edge_one_record_rejected_iff align [1; 0] self (Finite 2%Q)).
  - simpl. apply perm_swap.
  - reflexivity.
Defined.

(** The edge (0, 1) aligns with error 1 and is kept; the edge (1, 2) aligns
    with error 3, above the threshold 2, and keeps its shift. *)
Example register_all_three_tiles :
  match ParallelEdgeAligner.register_all Fixtures.toy_align [1; 0]
          Fixtures.three_tiles_thresholded with
  | inl _ => False
  | inr self' =>
      ParallelEdgeAligner._cache self' !! (0, 1)%Z
        = Some ((0%Q, 1%Q), Finite 1%Q)
      ∧ ParallelEdgeAligner._cache self' !! (1, 2)%Z
        = Some ((inject_Z 10, inject_Z 2), Inf)
      ∧ size (ParallelEdgeAligner._cache self') = 2
  end.
Proof. vm_compute. repeat split. Qed.

(** C4, as the claim words it, fails on the three-tile layer with threshold
    2 and maximum shift 15 when every pair registers with the shift (12, 12)
    and error 1 and tile 2 cannot be read.  [register_all] returns.  The
    record of the edge (0, 1) keeps its error 1 although the magnitude of its
    shift, the square root of 288, exceeds 15: the code compares each
    component, 12, with the bound.  The edge (1, 2), whose registration
    raised, has no record. *)
Lemma register_all_magnitude_and_failed_edge :
  let self := Fixtures.three_tiles_thresholded in
  match ParallelEdgeAligner.register_all Fixtures.faulty_align [0; 1] self with
  | inl _ => False
  | inr self' =>
      ParallelEdgeAligner.edges self = [(0, 1); (1, 2)]%Z
      ∧ ParallelEdgeAligner.max_error self = Some (Finite 2%Q)
      ∧ ParallelEdgeAligner.max_shift_pixels self = 15%Q
      ∧ ParallelEdgeAligner.record_of Fixtures.faulty_align
          (ParallelEdgeAligner._cache self) (0, 1)%Z
        = ok ((12%Q, 12%Q), Finite 1%Q)
      ∧ ParallelEdgeAligner.shift_magnitude_exceeds (12%Q, 12%Q)
          (ParallelEdgeAligner.max_shift_pixels self)
      ∧ ParallelEdgeAligner._cache self' !! (0, 1)%Z
        = Some ((12%Q, 12%Q), Finite 1%Q)
      ∧ ParallelEdgeAligner.record_of Fixtures.faulty_align
          (ParallelEdgeAligner._cache self) (1, 2)%Z
        = raise (TaskError 2)
      ∧ ParallelEdgeAligner._cache self' !! (1, 2)%Z = None
  end.
Proof.
  vm_compute. repeat split. right. reflexivity.
Qed.

(** ** The thumbnail step of the edge aligner *)

(** A state that is none of the listed ones is not in the list. *)
Ltac absent_stage :=
  rewrite ?not_elem_of_cons; repeat split; try done; apply not_elem_of_nil.

Section PipelineFacts.

Import ParallelEdgeAligner Pipeline.

Variable intersection : Z → Z → option Z → Intersection.

Variable read : Z → Z → list (list Z).

Variable utils_register : list (list Z) → list (list Z) → Q → shift * score.

Variable percentile : list score → Q → score.

Variable seeded : nat → Z.

Variable entropy : nat → Z.

Variable make_thumbnail_image : Metadata → Z → ParallelMosaic.ndarray.

Variable align : Z → Z → result (shift * score).

Variable open_reader : string → Metadata.

Variable neighbors_graph : Metadata → list (Z * Z).

(** [make_thumbnail] assigns the reader's thumbnail exactly when the flag
    is set. *)
Lemma make_thumbnail_builds (self : EdgeAligner) :
  thumbnail self = None →
  (is_Some (thumbnail (make_thumbnail make_thumbnail_image self))
   ↔ do_make_thumbnail self = true).
Proof.
  intros Hnone. unfold make_thumbnail.
  destruct (do_make_thumbnail self); cbn.
  - split; [done|]. eauto.
  - rewrite Hnone. split; [by intros [? ?]|done].
Qed.

(** The states [run] reaches: thumbnail built, if at all, comes first. *)
Lemma run_stages (order_threshold order_edges : list nat) (self : EdgeAligner) :
  thumbnail self = None →
  ∃ later,
    snd (run intersection read utils_register percentile seeded entropy
           make_thumbnail_image align order_threshold order_edges self)
    = (if do_make_thumbnail self then [ThumbnailBuilt] else []) ++ later
    ∧ ThumbnailBuilt ∉ later.
Proof.
  intros Hnone. unfold run.
  pose proof (make_thumbnail_builds self Hnone) as Hbuilt.
  destruct (thumbnail (make_thumbnail make_thumbnail_image self)) as [t|].
  - rewrite (proj1 Hbuilt) by eauto.
    destruct (fst (compute_threshold _ _ _ _ _ _ _ _)) as [e|self1]; cbn.
    + exists []. split; [done|]. apply not_elem_of_nil.
    + destruct (register_all _ _ _) as [e|self2]; cbn; eexists;
        (split; [done|absent_stage]).
  - destruct (do_make_thumbnail self).
    { destruct (proj2 Hbuilt eq_refl) as [? ?]. done. }
    destruct (fst (compute_threshold _ _ _ _ _ _ _ _)) as [e|self1]; cbn.
    + exists []. split; [done|]. apply not_elem_of_nil.
    + destruct (register_all _ _ _) as [e|self2]; cbn; eexists;
        (split; [done|absent_stage]).
Qed.

(** C9, as amended.  The thumbnail step of the edge aligner is skipped
    exactly when [do_make_thumbnail] is false, which in [process_single] is
    exactly when a single input file is given or the caller's aligner
    arguments switch it off, whatever the number of tiles of the layer; in
    every other run the thumbnail is built, and it is built before the
    threshold is computed. *)
Theorem thumbnail_skipped_iff_single_file (order_threshold order_edges : list nat)
    (filepaths : list string) (aligner_args : AlignerArgs) :
  let stages :=
    snd (process_single intersection read utils_register percentile seeded entropy
           make_thumbnail_image align open_reader neighbors_graph
           order_threshold order_edges filepaths aligner_args) in
  (ThumbnailBuilt ∈ stages ↔
     1 < length filepaths ∧ arg_do_make_thumbnail aligner_args ≠ Some false)
  ∧ (∀ i j, stages !! i = Some ThumbnailBuilt →
            stages !! j = Some ThresholdComputed → i < j).
Proof.
  cbn zeta. unfold process_single. destruct filepaths as [|path rest].
  { cbn. split; [|done]. split; [intros H; by apply elem_of_nil in H|lia]. }
  match goal with |- context [run _ _ _ _ _ _ _ _ _ _ ?s] =>
    destruct (run_stages order_threshold order_edges s eq_refl)
      as (later & -> & Hlater);
    assert (Hflag : do_make_thumbnail s = true ↔
              1 < length (path :: rest)
              ∧ arg_do_make_thumbnail aligner_args ≠ Some false);
    [|destruct (do_make_thumbnail s)]
  end.
  - cbn [length]. case_decide as Hone; cbn.
    + split; [done|]. intros [? _]. lia.
    + destruct (arg_do_make_thumbnail aligner_args) as [[]|]; cbn;
        (split; [intros; split; [lia|done]|]); try done.
      intros [_ H]. done.
  - split.
    + split; [intros _; by apply Hflag|intros _; by left].
    + intros i j Hi Hj. destruct i as [|i].
      * destruct j as [|j]; [cbn in Hj; congruence|lia].
      * exfalso. apply Hlater. cbn in Hi. by eapply list_elem_of_lookup_2.
  - cbn [app]. split.
    + split; [done|]. intros H. apply Hflag in H. done.
    + intros i j Hi _. exfalso. apply Hlater. by eapply list_elem_of_lookup_2.
Qed.

End PipelineFacts.

(** C9 as stated fails both ways: a three-tile layer given as the only input
    file gets no thumbnail, and a one-tile layer given with a second input
    file gets one. *)
Lemma thumbnail_does_not_follow_tile_count :
  let multi_tile := Fixtures.toy_process_single 3 ["cycle0.tif"%string] in
  let single_tile :=
    Fixtures.toy_process_single 1 ["cycle0.tif"%string; "cycle1.tif"%string] in
  snd multi_tile
    = [Pipeline.ThresholdComputed; Pipeline.EdgesRegistered; Pipeline.Done]
  ∧ (Pipeline.ThumbnailBuilt ∉ snd multi_tile)
  ∧ snd single_tile
    = [Pipeline.ThumbnailBuilt; Pipeline.ThresholdComputed;
       Pipeline.EdgesRegistered; Pipeline.Done]
  ∧ Pipeline.ThumbnailBuilt ∈ snd single_tile.
Proof.
  intros multi_tile single_tile.
  assert (H1 : snd multi_tile
    = [Pipeline.ThresholdComputed; Pipeline.EdgesRegistered; Pipeline.Done])
    by (vm_compute; reflexivity).
  assert (H2 : snd single_tile
    = [Pipeline.ThumbnailBuilt; Pipeline.ThresholdComputed;
       Pipeline.EdgesRegistered; Pipeline.Done])
    by (vm_compute; reflexivity).
  clearbody multi_tile single_tile.
  rewrite H1, H2. repeat split.
  - absent_stage.
  - by left.
Qed.

(** * Further properties *)

(** ** Task executor: failing tasks *)

Section ExecutorFailures.

Import Executor.

Context {A B : Type}.

Lemma drain_first_failure (func : A → result B) (args : list A)
    (i : nat) (post : list nat) (a : A) (e : exn) :
  args !! i = Some a → func a = raise e →
  ∀ (pre : list nat) (results : list (option B)),
    (∀ j aj, j ∈ pre → args !! j = Some aj → ∃ v, func aj = ok v) →
    drain func args (pre ++ i :: post) results = raise e.
Proof.
  intros Ha He pre. induction pre as [|j pre IH]; intros results Hpre.
  - cbn. by rewrite Ha, He.
  - cbn. destruct (args !! j) as [aj|] eqn:Hj.
    + destruct (Hpre j aj) as [v ->]; [by left|done|].
      apply IH. intros k ak Hk. apply Hpre. by right.
    + apply IH. intros k ak Hk. apply Hpre. by right.
Qed.

Lemma drain_some_failure (func : A → result B) (args : list A) :
  ∀ (order : list nat) (results : list (option B)),
    (∃ i a e, i ∈ order ∧ args !! i = Some a ∧ func a = raise e) →
    ∃ j a e, j ∈ order ∧ args !! j = Some a ∧ func a = raise e
             ∧ drain func args order results = raise e.
Proof.
  induction order as [|k rest IH]; intros results (i & a & e & Hi & Ha & He).
  - by apply elem_of_nil in Hi.
  - cbn. destruct (args !! k) as [ak|] eqn:Hk.
    + destruct (func ak) as [ek|v] eqn:Hf.
      * exists k, ak, ek. repeat split; [by left|done..].
      * assert (Hrest : i ∈ rest).
        { apply elem_of_cons in Hi as [->|Hi]; [congruence|done]. }
        destruct (IH (<[k := Some v]> results)) as (j & aj & ej & Hj & ? & ? & ?);
          [by eauto 6|].
        exists j, aj, ej. repeat split; [by right|done..].
    + assert (Hrest : i ∈ rest).
      { apply elem_of_cons in Hi as [->|Hi]; [congruence|done]. }
      destruct (IH results) as (j & aj & ej & Hj & ? & ? & ?); [by eauto 6|].
      exists j, aj, ej. repeat split; [by right|done..].
Qed.

Lemma drain_no_args (func : A → result B) (order : list nat)
    (results : list (option B)) :
  drain func [] order results = ok results.
Proof. induction order as [|k rest IH]; [done|]. cbn. exact IH. Qed.

(** The ordered executor raises what the first failed future, in completion
    order, raised: the results collected before it are not returned. *)
Theorem ordered_executor_raises_first_failure (func : A → result B)
    (args : list A) (pre : list nat) (i : nat) (post : list nat) (a : A)
    (e : exn) :
  args !! i = Some a → func a = raise e →
  (∀ j aj, j ∈ pre → args !! j = Some aj → ∃ v, func aj = ok v) →
  execute_parallel_with_ordered_results func args (pre ++ i :: post)
    = raise e.
Proof.
  intros Ha He Hpre. unfold execute_parallel_with_ordered_results.
  by apply (drain_first_failure func args i post a e).
Qed.

End ExecutorFailures.

Lemma ordered_executor_raises_first_failure_witness :
  Executor.execute_parallel_with_ordered_results
    (λ a : nat, if decide (a = 5) then raise (TaskError 1)
                else if decide (a = 7) then raise (TaskError 2)
                else ok (a * a))
    [3; 5; 7] ([0] ++ 2 :: [1])
  = raise (TaskError 2).
Proof.
  apply (ordered_executor_raises_first_failure _ [3; 5; 7] [0] 2 [1] 7).
  - reflexivity.
  - reflexivity.
  - intros j aj Hj Haj. apply list_elem_of_singleton in Hj as ->.
    injection Haj as <-. by exists 9.
Defined.

(** ** Layer aligner: no tiles, failing tiles *)

(** A layer without tiles: the transposed result list is empty and
    [register_all] raises [ValueError] on unpacking it, whatever the
    registration function. *)
Theorem layer_register_all_no_tiles
    (register : nat → result (shift * score)) (order : list nat)
    (self : ParallelLayerAligner.LayerAligner) :
  ParallelLayerAligner.num_images self = 0 →
  ParallelLayerAligner.register_all register order self = raise ValueError.
Proof.
  intros Hn. unfold ParallelLayerAligner.register_all. rewrite Hn.
  unfold Executor.execute_parallel_with_ordered_results. cbn [seq length].
  by rewrite drain_no_args.
Qed.

Lemma layer_register_all_no_tiles_witness :
  ParallelLayerAligner.register_all
    (λ i, ok ((0%Q, 0%Q), Finite 1%Q)) []
    {| ParallelLayerAligner.num_images := 0;
       ParallelLayerAligner.shifts := [];
       ParallelLayerAligner.errors := [] |}
  = raise ValueError.
Proof.
  apply (layer_register_all_no_tiles (λ i, ok ((0%Q, 0%Q), Finite 1%Q)) []).
  reflexivity.
Defined.

(** If the registration of some tile raises, [register_all] raises what the
    registration of a tile raised and assigns neither [shifts] nor
    [errors]. *)
Theorem layer_register_all_propagates_failure
    (register : nat → result (shift * score)) (order : list nat)
    (self : ParallelLayerAligner.LayerAligner) (i : nat) (e : exn) :
  order ≡ₚ seq 0 (ParallelLayerAligner.num_images self) →
  i < ParallelLayerAligner.num_images self →
  register i = raise e →
  ∃ j e', j < ParallelLayerAligner.num_images self
          ∧ register j = raise e'
          ∧ ParallelLayerAligner.register_all register order self = raise e'.
Proof.
  intros Hperm Hi He. unfold ParallelLayerAligner.register_all.
  unfold Executor.execute_parallel_with_ordered_results.
  set (n := ParallelLayerAligner.num_images self) in *.
  destruct (drain_some_failure register (seq 0 n) order
              (replicate (length (seq 0 n)) None))
    as (j & a & e' & Hj & Ha & He' & ->).
  { exists i, i, e. split; [|split; [|done]].
    - rewrite Hperm. apply elem_of_seq. lia.
    - by apply lookup_seq_lt. }
  apply lookup_seq in Ha as [-> Hlt]. exists j, e'. done.
Qed.

Lemma layer_register_all_propagates_failure_witness :
  ∃ j e', j < 3
          ∧ (λ i : nat, if decide (i = 1) then raise (TaskError 4)
                        else ok ((0%Q, 0%Q), Finite 1%Q)) j = raise e'
          ∧ ParallelLayerAligner.register_all
              (λ i : nat, if decide (i = 1) then raise (TaskError 4)
                          else ok ((0%Q, 0%Q), Finite 1%Q))
              [2; 1; 0]
              {| ParallelLayerAligner.num_images := 3;
                 ParallelLayerAligner.shifts := [];
                 ParallelLayerAligner.errors := [] |}
            = raise e'.
Proof.
  apply (layer_register_all_propagates_failure
           (λ i : nat, if decide (i = 1) then raise (TaskError 4)
                       else ok ((0%Q, 0%Q), Finite 1%Q))
           [2; 1; 0]
           {| ParallelLayerAligner.num_images := 3;
              ParallelLayerAligner.shifts := [];
              ParallelLayerAligner.errors := [] |} 1 (TaskError 4)).
  - apply (reverse_Permutation [0; 1; 2]).
  - cbn. lia.
  - reflexivity.
Defined.

(** ** Mosaic assembler: flips and shape *)

(** Each flip loop undoes itself, and the two loops commute. *)
Theorem flips_are_involutions_and_commute (out : list (list Z)) :
  ParallelMosaic.flip_x (ParallelMosaic.flip_x out) = out
  ∧ ParallelMosaic.flip_y (ParallelMosaic.flip_y out) = out
  ∧ ParallelMosaic.flip_y (ParallelMosaic.flip_x out)
    = ParallelMosaic.flip_x (ParallelMosaic.flip_y out).
Proof.
  rewrite !flip_x_reverses_rows, !flip_y_reverses_order. repeat split.
  - rewrite <- list_fmap_compose. rewrite <- (list_fmap_id out) at 2.
    apply list_fmap_ext. intros i r _. apply reverse_involutive.
  - apply reverse_involutive.
  - by rewrite fmap_reverse.
Qed.

Lemma flip_zeros (s : nat * nat) :
  ParallelMosaic.with_rows ParallelMosaic.flip_x (ParallelMosaic.zeros s)
    = ParallelMosaic.zeros s
  ∧ ParallelMosaic.with_rows ParallelMosaic.flip_y (ParallelMosaic.zeros s)
    = ParallelMosaic.zeros s.
Proof.
  unfold ParallelMosaic.with_rows, ParallelMosaic.zeros.
  cbn [ParallelMosaic.rows ParallelMosaic.ncols].
  rewrite flip_x_reverses_rows, flip_y_reverses_order.
  by rewrite fmap_replicate, !reverse_replicate.
Qed.

Section MosaicShape.

Import ParallelMosaic.

Context {image position : Type}.

Variable read : Z → nat → image.

Variable correct_illumination : image → Z → image.

Variable paste : ndarray → image → position → ndarray.

Lemma paste_tiles_shape (channel : Z) (positions : list position) :
  (∀ o img p, shape (paste o img p) = shape o) →
  ∀ (si : nat) (out : ndarray),
    shape (fst (paste_tiles read correct_illumination paste channel si
                  positions out)) = shape out.
Proof.
  intros Hpaste. induction positions as [|p rest IH]; intros si out; [done|].
  cbn [paste_tiles].
  specialize (IH (S si) (paste out (correct_illumination (read channel si) channel) p)).
  destruct (paste_tiles _ _ _ _ _ _ _) as [o evs]. cbn in *.
  by rewrite IH, Hpaste.
Qed.

Lemma flips_keep_shape (a : ndarray) :
  shape (with_rows flip_x a) = shape a ∧ shape (with_rows flip_y a) = shape a.
Proof.
  unfold shape, with_rows. cbn [rows ncols].
  rewrite flip_x_reverses_rows, flip_y_reverses_order.
  by rewrite length_fmap, length_reverse.
Qed.

(** With a paste that writes into the canvas without reshaping it, the
    canvas [assemble_channel_parallel] returns has the mosaic's shape,
    whether it was supplied or allocated and whatever the flips. *)
Theorem assemble_returns_mosaic_shape (self : Mosaic) (channel : Z)
    (positions : list position) (out : option ndarray) (canvas : ndarray) :
  (∀ o img p, shape (paste o img p) = shape o) →
  returned (assemble_channel_parallel read correct_illumination paste self
              channel positions out) = ok canvas →
  shape canvas = mosaic_shape self.
Proof.
  intros Hpaste. unfold assemble_channel_parallel.
  assert (Hflips : ∀ o : ndarray,
    shape (if flip_mosaic_y self
           then with_rows flip_y (if flip_mosaic_x self
                                  then with_rows flip_x o else o)
           else if flip_mosaic_x self then with_rows flip_x o else o)
    = shape o).
  { intros o. destruct (flip_mosaic_x self), (flip_mosaic_y self);
      rewrite ?(proj2 (flips_keep_shape _)), ?(proj1 (flips_keep_shape _));
      done. }
  destruct out as [o|].
  - case_decide as Hshape; [done|].
    pose proof (paste_tiles_shape channel positions Hpaste 0 o) as Hsh.
    destruct (paste_tiles _ _ _ _ _ _ _) as [c evs]. cbn in *.
    intros [= <-]. rewrite Hflips, Hsh.
    by destruct (decide (shape o = mosaic_shape self)).
  - pose proof (paste_tiles_shape channel positions Hpaste 0
                  (zeros (mosaic_shape self))) as Hsh.
    destruct (paste_tiles _ _ _ _ _ _ _) as [c evs]. cbn in *.
    intros [= <-]. rewrite Hflips, Hsh.
    unfold shape, zeros. cbn. rewrite length_replicate.
    by destruct (mosaic_shape self).
Qed.

(** With no tile positions and no canvas supplied the result is the
    all-zero canvas of the mosaic's shape, whatever the flips. *)
Theorem assemble_no_tiles_is_zero_canvas (self : Mosaic) (channel : Z) :
  assemble_channel_parallel read correct_illumination paste self channel
      [] None
    = {| returned := ok (zeros (mosaic_shape self));
         supplied_after := None;
         events := [] |}.
Proof.
  unfold assemble_channel_parallel. cbn [paste_tiles].
  destruct (flip_mosaic_x self), (flip_mosaic_y self);
    rewrite ?(proj1 (flip_zeros _)), ?(proj2 (flip_zeros _)); done.
Qed.

End MosaicShape.

(** A canvas of two rows is supplied; the tiles 7 and 8 are pasted over its
    rows and both flips apply. *)
Lemma assemble_returns_mosaic_shape_witness :
  let self :=
    {| ParallelMosaic.mosaic_shape := (2, 2);
       ParallelMosaic.flip_mosaic_x := true;
       ParallelMosaic.flip_mosaic_y := true |} in
  let paste := λ o (img : Z) (p : nat),
    ParallelMosaic.with_rows (λ rs, <[p := [img; img]]> rs) o in
  let supplied :=
    {| ParallelMosaic.rows := [[1; 2]; [3; 4]]%Z; ParallelMosaic.ncols := 2 |} in
  let canvas :=
    {| ParallelMosaic.rows := [[8; 8]; [7; 7]]%Z; ParallelMosaic.ncols := 2 |} in
  ParallelMosaic.returned
    (ParallelMosaic.assemble_channel_parallel
       (λ _ si, (7 + Z.of_nat si)%Z) (λ img _, img) paste self 0%Z [0; 1]
       (Some supplied)) = ok canvas
  ∧ ParallelMosaic.shape canvas = ParallelMosaic.mosaic_shape self.
Proof.
  intros self paste supplied canvas.
  assert (Hrun : ParallelMosaic.returned
    (ParallelMosaic.assemble_channel_parallel
       (λ _ si, (7 + Z.of_nat si)%Z) (λ img _, img) paste self 0%Z [0; 1]
       (Some supplied)) = ok canvas) by reflexivity.
  split; [exact Hrun|].
  apply (assemble_returns_mosaic_shape
           (λ _ si, (7 + Z.of_nat si)%Z) (λ img _, img) paste self 0%Z [0; 1]
           (Some supplied) canvas).
  - intros o img p. unfold ParallelMosaic.shape, paste, ParallelMosaic.with_rows.
    cbn. by rewrite length_insert.
  - exact Hrun.
Defined.

(** ** Edge aligner: what the sampling loop draws *)

(** A slice of [w] rows that starts inside the array and ends inside it has
    exactly [w] rows, the rows from [start] on. *)
Lemma py_slice_inside {A : Type} (start w : Z) (a : list A) :
  (0 ≤ start)%Z → (0 ≤ w)%Z → (start + w ≤ Z.of_nat (length a))%Z →
  length (ParallelEdgeAligner.py_slice start (start + w) a) = Z.to_nat w
  ∧ ∀ i, i < Z.to_nat w →
      ParallelEdgeAligner.py_slice start (start + w) a !! i
      = a !! (Z.to_nat start + i).
Proof.
  intros Hstart Hw Hend.
  unfold ParallelEdgeAligner.py_slice, ParallelEdgeAligner.clip_index.
  destruct (Z.ltb_spec start 0); [lia|].
  destruct (Z.ltb_spec (start + w) 0); [lia|].
  split.
  - rewrite length_take, length_drop. lia.
  - intros i Hi. rewrite lookup_take_lt by lia. rewrite lookup_drop.
    f_equal. lia.
Qed.

Section SamplingFacts.

Import ParallelEdgeAligner.

Local Open Scope Z_scope.

Variable intersection : Z → Z → option Z → Intersection.

Variable read : Z → Z → list (list Z).

Variable utils_register : list (list Z) → list (list Z) → Q → shift * score.

Variable percentile : list score → Q → score.

Variable seeded : nat → Z.

Variable entropy : nat → Z.

Lemma randint2_cases (high : Z) (w w1 : world) (r : result (Z * Z)) :
  randint2 high w = (r, w1) →
  log w1 = log w
  ∧ match r with
    | inr (a, b) => (0 ≤ a < high) ∧ (0 ≤ b < high)
    | inl _ => True
    end.
Proof.
  unfold randint2. destruct (Z.leb_spec high 0); intros [= <- <-].
  - done.
  - split; [done|]. split; apply Z.mod_pos_bound; lia.
Qed.

Lemma filter_draws_length (l : list sample) :
  length (filter (λ ev, is_draw ev = true) (Draw <$> l)) = length l.
Proof.
  induction l as [|s l IH]; [done|]. cbn [fmap list_fmap].
  rewrite filter_cons_True by done. cbn. by rewrite IH.
Qed.

Lemma draws_not_registers (l : list sample) :
  Forall (λ ev, is_register ev = false) (Draw <$> l).
Proof. apply Forall_fmap. by apply Forall_true. Qed.

(** Whatever the retry loop does, it logs one draw per attempt made, at most
    [tries] of them, every draw in range, and it ends bound to the last. *)
Lemma retry_log (self : EdgeAligner) (wd max_offset : Z) :
  ∀ (tries : nat) (prev : option sample) (w w' : world)
    (r : result (option sample * bool)),
    retry intersection self wd max_offset tries prev w = (r, w') →
    ∃ draws,
      log w' = log w ++ (Draw <$> draws)
      ∧ (length draws ≤ tries)%nat
      ∧ Forall (in_range self max_offset) draws
      ∧ match r with
        | inr (last', _) => last' = from_option Some prev (last draws)
        | inl _ => True
        end.
Proof.
  induction tries as [|k IH]; intros prev w w' r.
  - cbn. intros [= <- <-]. exists []. cbn. rewrite app_nil_r.
    repeat split; [lia|constructor].
  - cbn [retry]. unfold bind at 1.
    destruct (randint2 (num_images (metadata self)) w) as [[e|[t1 t2]] w1] eqn:H1;
      apply randint2_cases in H1 as [Hl1 Ht].
    { intros [= <- <-]. exists []. cbn. rewrite app_nil_r.
      repeat split; [done|lia|constructor]. }
    unfold bind at 1.
    destruct (randint2 max_offset w1) as [[e|[o1 o2]] w2] eqn:H2;
      apply randint2_cases in H2 as [Hl2 Ho].
    { intros [= <- <-]. exists []. cbn. rewrite app_nil_r.
      repeat split; [congruence|lia|constructor]. }
    unfold bind at 1, tell at 1.
    assert (Hin : in_range self max_offset (t1, t2, o1, o2))
      by (unfold in_range; tauto).
    destruct (non_overlapping intersection self wd (t1, t2, o1, o2)).
    + unfold ret. intros [= <- <-]. exists [(t1, t2, o1, o2)]. cbn.
      repeat split; [congruence|lia|by constructor].
    + intros Hrest. apply IH in Hrest as (draws & Hlog & Hlen & Hall & Hlast).
      cbn [log] in Hlog. exists ((t1, t2, o1, o2) :: draws).
      repeat split.
      * rewrite Hlog, Hl2, Hl1. cbn [fmap list_fmap]. by rewrite <- app_assoc.
      * cbn. lia.
      * by constructor.
      * destruct r as [e|[last' found]]; [done|]. rewrite Hlast, last_cons.
        by destruct (last draws).
Qed.

(** Whatever the sampling loop does, it logs no registration and at most
    [max_tries] draws per pair; when it returns, it returns [n] pairs, all
    in range. *)
Lemma sample_loop_log (self : EdgeAligner) (wd max_offset : Z) :
  ∀ (n : nat) (prev : option sample) (w w' : world)
    (r : result (list sample)),
    from_option (in_range self max_offset) True prev →
    sample_loop intersection self wd max_offset n prev w = (r, w') →
    ∃ evs,
      log w' = log w ++ evs
      ∧ Forall (λ ev, is_register ev = false) evs
      ∧ (length (filter (λ ev, is_draw ev = true) evs) ≤ max_tries * n)%nat
      ∧ match r with
        | inr samples =>
            length samples = n ∧ Forall (in_range self max_offset) samples
        | inl _ => True
        end.
Proof.
  induction n as [|k IH]; intros prev w w' r Hprev.
  - cbn. intros [= <- <-]. exists []. rewrite app_nil_r.
    repeat split; [constructor|cbn; lia|constructor].
  - cbn [sample_loop]. unfold bind at 1.
    destruct (retry intersection self wd max_offset max_tries prev w)
      as [[e|[last' found]] w1] eqn:Hretry;
      apply retry_log in Hretry as (draws & Hlog & Hlen & Hall & Hlast).
    { intros [= <- <-]. exists (Draw <$> draws).
      repeat split; [done|apply draws_not_registers|].
      rewrite filter_draws_length. lia. }
    unfold bind at 1.
    set (warned := if found then [] else [Warn]).
    assert (Hstep : ∃ w2, (if found then ret tt else tell [Warn]) w1 = (ok tt, w2)
                          ∧ log w2 = log w1 ++ warned).
    { unfold warned. destruct found; eexists; (split; [reflexivity|]); cbn;
        by rewrite ?app_nil_r. }
    destruct Hstep as (w2 & -> & Hlog2).
    assert (Hwarned : Forall (λ ev, is_register ev = false) warned
                      ∧ filter (λ ev, is_draw ev = true) warned = []).
    { unfold warned. destruct found; split; try done; by repeat constructor. }
    destruct Hwarned as [Hwreg Hwdraw].
    destruct last' as [s|].
    2:{ unfold throw. intros [= <- <-]. exists ((Draw <$> draws) ++ warned).
        repeat split.
        - by rewrite Hlog2, Hlog, <- app_assoc.
        - apply Forall_app. split; [apply draws_not_registers|done].
        - rewrite filter_app, Hwdraw, app_nil_r, filter_draws_length. lia. }
    assert (Hs : in_range self max_offset s).
    { destruct (last draws) as [d|] eqn:Hd; cbn in Hlast.
      - injection Hlast as ->. apply last_Some in Hd as [l' ->].
        apply Forall_app in Hall as [_ Hall].
        by apply (proj1 (Forall_singleton _ _)) in Hall.
      - rewrite <- Hlast in Hprev. exact Hprev. }
    unfold bind at 1.
    destruct (sample_loop intersection self wd max_offset k (Some s) w2)
      as [[e|rest] w3] eqn:Hloop;
      apply IH in Hloop as (evs & Hlog3 & Hreg & Hdraws & Hres); try done.
    + intros [= <- <-]. exists ((Draw <$> draws) ++ warned ++ evs).
      repeat split.
      * by rewrite Hlog3, Hlog2, Hlog, <- !app_assoc.
      * repeat (apply Forall_app; split); [apply draws_not_registers|done..].
      * rewrite !filter_app, Hwdraw, !length_app, filter_draws_length.
        unfold max_tries in *. cbn [length]. lia.
    + unfold ret. intros [= <- <-]. destruct Hres as [Hl Hrange].
      exists ((Draw <$> draws) ++ warned ++ evs).
      repeat split.
      * by rewrite Hlog3, Hlog2, Hlog, <- !app_assoc.
      * repeat (apply Forall_app; split); [apply draws_not_registers|done..].
      * rewrite !filter_app, Hwdraw, !length_app, filter_draws_length.
        unfold max_tries in *. cbn [length]. lia.
      * cbn. lia.
      * by constructor.
Qed.

Lemma num_samples_le (self : EdgeAligner) : num_samples self ≤ 1000.
Proof.
  unfold num_samples. destruct (Z.gtb_spec (num_distant_pairs self) 8); lia.
Qed.

(** The event log of threshold computation, whatever its outcome: draws and
    warnings first, then the registrations, all of the strip width. *)
Lemma compute_threshold_log (order : list nat) (self : EdgeAligner)
    (r : result EdgeAligner) (evs : list event) :
  compute_threshold intersection read utils_register percentile seeded entropy
      order self = (r, evs) →
  ∃ w pre regs,
    evs = pre ++ (Register w <$> regs)
    ∧ Forall (λ ev, is_register ev = false) pre
    ∧ (length (filter (λ ev, is_draw ev = true) pre)
       ≤ max_tries * Z.to_nat (num_samples self))%nat
    ∧ (length regs ≤ Z.to_nat (num_samples self))%nat
    ∧ Forall (in_range self (fst (size (metadata self)) - w)) regs
    ∧ (regs ≠ [] → strip_width intersection self = Some w).
Proof.
  unfold compute_threshold.
  assert (Hnone : ∀ (r0 : result EdgeAligner),
    (r0, @nil event) = (r, evs) →
    ∃ w pre regs,
      evs = pre ++ (Register w <$> regs)
      ∧ Forall (λ ev, is_register ev = false) pre
      ∧ (length (filter (λ ev, is_draw ev = true) pre)
         ≤ max_tries * Z.to_nat (num_samples self))%nat
      ∧ (length regs ≤ Z.to_nat (num_samples self))%nat
      ∧ Forall (in_range self (fst (size (metadata self)) - w)) regs
      ∧ (regs ≠ [] → strip_width intersection self = Some w)).
  { intros r0 [= <- <-]. exists 0, [], []. cbn.
    repeat split; try constructor; [lia..|done]. }
  destruct (Z.leb_spec (Z.of_nat (length (edges self))) 1); [apply Hnone|].
  destruct (strip_width intersection self) as [w|]; [|apply Hnone].
  destruct (Z.ltb_spec (num_samples self) 0); [apply Hnone|].
  cbv zeta. unfold bind. cbv beta.
  match goal with |- context [sample_loop _ _ _ ?mo ?n ?p ?w0] =>
    destruct (sample_loop intersection self w mo n p w0)
      as [[e|samples] w1] eqn:Hloop
  end;
    (apply sample_loop_log in Hloop as (pre & Hlog & Hreg & Hdraws & Hres);
     try done);
    cbn [log app] in Hlog.
  - intros [= <- <-]. exists w, pre, []. cbn [fmap list_fmap].
    rewrite app_nil_r. repeat split; try done. cbn. lia.
  - destruct Hres as [Hl Hrange]. unfold tell, ret. cbn [log].
    assert (Hevs : ∀ r0, (r0, log w1 ++ (Register w <$> samples)) = (r, evs) →
      ∃ w0 pre0 regs,
        evs = pre0 ++ (Register w0 <$> regs)
        ∧ Forall (λ ev, is_register ev = false) pre0
        ∧ (length (filter (λ ev, is_draw ev = true) pre0)
           ≤ max_tries * Z.to_nat (num_samples self))%nat
        ∧ (length regs ≤ Z.to_nat (num_samples self))%nat
        ∧ Forall (in_range self (fst (size (metadata self)) - w0)) regs
        ∧ (regs ≠ [] → Some w = Some w0)).
    { intros r0 [= <- <-]. exists w, pre, samples. rewrite Hlog.
      repeat split; try done. lia. }
    destruct (Executor.execute_parallel_with_ordered_results _ _ _)
      as [e|results]; [apply Hevs|].
    destruct (mapM id results); apply Hevs.
Qed.

(** Threshold computation never submits more than 1000 strip registrations
    and never makes more than 100 draws per submitted pair, 100000 in all,
    whatever the layer and the random generator. *)
Theorem threshold_sampling_budget (order : list nat) (self : EdgeAligner) :
  let evs :=
    snd (compute_threshold intersection read utils_register percentile seeded
           entropy order self) in
  Z.of_nat (length (filter (λ ev, is_register ev = true) evs)) ≤ 1000
  ∧ Z.of_nat (length (filter (λ ev, is_draw ev = true) evs)) ≤ 100000.
Proof.
  cbn zeta.
  destruct (compute_threshold _ _ _ _ _ _ _ _) as [r evs] eqn:Hrun.
  apply compute_threshold_log in Hrun
    as (w & pre & regs & -> & Hreg & Hdraws & Hlen & _ & _).
  pose proof (num_samples_le self) as Hle. cbn [snd].
  rewrite !filter_app, !length_app.
  assert (filter (λ ev, is_register ev = true) pre = []) as ->.
  { clear Hdraws. induction pre as [|ev pre IH]; [done|].
    apply Forall_cons in Hreg as [Hev Hreg].
    rewrite filter_cons_False by congruence. by apply IH. }
  rewrite filter_register_events, length_fmap.
  assert (filter (λ ev, is_draw ev = true) (Register w <$> regs) = []) as ->.
  { induction regs as [|s regs IH]; [done|]. cbn [fmap list_fmap].
    rewrite filter_cons_False by done. apply IH. cbn in Hlen. lia. }
  unfold max_tries in *. cbn [length]. lia.
Qed.

(** Every strip submitted for registration lies inside its tile: the pair's
    tile indices are tiles of the layer, its offsets leave room for the
    strip width below them, and both strips have exactly [w] rows. *)
Theorem registered_strips_lie_inside_tiles (order : list nat)
    (self : EdgeAligner) (w : Z) :
  strip_width intersection self = Some w →
  0 ≤ w →
  (∀ t c, Z.of_nat (length (read t c)) = fst (size (metadata self))) →
  Forall (strip_inside read self w)
    (snd (compute_threshold intersection read utils_register percentile seeded
            entropy order self)).
Proof.
  intros Hw Hpos Hrows.
  destruct (compute_threshold _ _ _ _ _ _ _ _) as [r evs] eqn:Hrun.
  apply compute_threshold_log in Hrun
    as (w0 & pre & regs & -> & Hreg & _ & _ & Hrange & Hwidth).
  cbn [snd]. apply Forall_app. split.
  - eapply Forall_impl; [exact Hreg|]. by intros [| |].
  - destruct regs as [|s0 regs0]; [constructor|].
    assert (w0 = w) as -> by (rewrite Hw in Hwidth; by injection Hwidth).
    apply Forall_fmap. eapply Forall_impl; [exact Hrange|].
    intros [[[t1 t2] o1] o2] Hin. cbn. split; [done|]. split; [exact Hin|].
    unfold in_range in Hin. destruct Hin as (_ & _ & Ho1 & Ho2).
    split; apply py_slice_inside; rewrite ?Hrows; lia.
Qed.

Lemma draws_neither_warn_nor_register (self : EdgeAligner) (l : list sample) :
  filter (λ ev, is_warn ev = true) (Draw <$> l) = []
  ∧ filter (λ ev, registers_unverified intersection self ev = true)
      (Draw <$> l) = [].
Proof.
  induction l as [|d l [IH1 IH2]]; [done|]. cbn [fmap list_fmap].
  by rewrite !filter_cons_False by done.
Qed.

Lemma registers_unverified_count (self : EdgeAligner) (w : Z)
    (l : list sample) :
  filter (λ ev, is_warn ev = true) (Register w <$> l) = []
  ∧ length (filter (λ ev, registers_unverified intersection self ev = true)
              (Register w <$> l))
    = length (filter (λ s, non_overlapping intersection self w s = false) l).
Proof.
  induction l as [|d l [IH1 IH2]]; [done|]. cbn [fmap list_fmap].
  rewrite filter_cons_False by done. split; [done|].
  destruct (non_overlapping intersection self w d) eqn:Hd0.
  - rewrite filter_cons_False by (cbn; by rewrite Hd0).
    by rewrite filter_cons_False by congruence.
  - rewrite filter_cons_True by (cbn; by rewrite Hd0).
    rewrite filter_cons_True by done. cbn. by rewrite IH2.
Qed.

Lemma rounds_warn_count (self : EdgeAligner) (w : Z) :
  ∀ (rs : list (list sample)) (ss : list sample),
    length rs = length ss →
    length (filter (λ ev, is_warn ev = true)
              (concat (zip_with (round_events intersection self w) rs ss)))
    = length (filter (λ s, non_overlapping intersection self w s = false) ss)
    ∧ filter (λ ev, registers_unverified intersection self ev = true)
        (concat (zip_with (round_events intersection self w) rs ss)) = [].
Proof.
  induction rs as [|r0 rs IH]; intros [|s0 ss] Hlen; try done.
  cbn [zip_with concat]. rewrite !filter_app, !length_app.
  destruct (IH ss) as [IH1 IH2]; [cbn in Hlen; lia|]. rewrite IH1, IH2.
  unfold round_events. rewrite !filter_app, !length_app.
  rewrite (proj1 (draws_neither_warn_nor_register self _)).
  rewrite (proj2 (draws_neither_warn_nor_register self _)).
  cbn [length app].
  destruct (non_overlapping intersection self w s0) eqn:Hs0.
  - rewrite (filter_cons_False _ s0) by congruence. done.
  - rewrite (filter_cons_True _ s0) by done. cbn. done.
Qed.

Lemma rounds_have_no_register (self : EdgeAligner) (w w' : Z) (s : sample) :
  ∀ (rs : list (list sample)) (ss : list sample),
    Register w' s ∉ concat (zip_with (round_events intersection self w) rs ss).
Proof.
  induction rs as [|r0 rs IH]; intros [|s0 ss] Hs; cbn in Hs;
    try by apply elem_of_nil in Hs.
  apply elem_of_app in Hs as [Hs|Hs]; [|by eapply IH].
  unfold round_events in Hs. apply elem_of_app in Hs as [Hs|Hs].
  - apply list_elem_of_fmap in Hs as (d & Hd & _). done.
  - destruct (non_overlapping intersection self w s0);
      [by apply elem_of_nil in Hs|].
    apply list_elem_of_singleton in Hs. done.
Qed.

(** When threshold computation returns, it has logged exactly one warning
    for each submitted pair that fails the non-overlap test; without a
    warning every submitted pair passes it. *)
Theorem warnings_count_unverified_pairs (order : list nat)
    (self : EdgeAligner) (w : Z) :
  (1 < length (edges self))%nat →
  strip_width intersection self = Some w →
  0 < num_images (metadata self) →
  w < fst (size (metadata self)) →
  0 ≤ num_samples self →
  order ≡ₚ seq 0 (Z.to_nat (num_samples self)) →
  ∃ self' evs,
    compute_threshold intersection read utils_register percentile seeded
        entropy order self = (ok self', evs)
    ∧ length (filter (λ ev, is_warn ev = true) evs)
      = length (filter (λ ev, registers_unverified intersection self ev = true)
                  evs)
    ∧ (filter (λ ev, is_warn ev = true) evs = [] →
       ∀ w' s, Register w' s ∈ evs →
               non_overlapping intersection self w' s = true).
Proof.
  intros Hedges Hw Hn Hlt Hsamples Hperm.
  destruct (compute_threshold_total intersection read utils_register percentile
              seeded entropy order self w)
    as (rounds & samples & -> & Hl & Hr & Hok); try done.
  eexists _, _. split; [reflexivity|].
  destruct (rounds_warn_count self w rounds samples) as [Hwarn Hunv]; [lia|].
  destruct (registers_unverified_count self w samples) as [Hrw Hru].
  assert (Hcount :
    length (filter (λ ev, is_warn ev = true)
              (concat (zip_with (round_events intersection self w) rounds
                         samples)
               ++ (Register w <$> samples)))
    = length (filter (λ s, non_overlapping intersection self w s = false)
                samples)).
  { by rewrite filter_app, length_app, Hwarn, Hrw, Nat.add_0_r. }
  split.
  { rewrite Hcount. by rewrite filter_app, length_app, Hunv, Hru. }
  intros Hnone w' s Hs.
  assert (Hzero : filter (λ s, non_overlapping intersection self w s = false)
                    samples = []).
  { apply length_zero_iff_nil. rewrite <- Hcount, Hnone. done. }
  apply elem_of_app in Hs as [Hs|Hs].
  - exfalso. by eapply rounds_have_no_register.
  - apply list_elem_of_fmap in Hs as (s1 & [= -> ->] & Hin).
    destruct (non_overlapping intersection self w s1) eqn:Hs1; [done|].
    exfalso.
    assert (s1 ∈ filter (λ s, non_overlapping intersection self w s = false)
                   samples) as Hmem by (apply list_elem_of_filter; done).
    rewrite Hzero in Hmem. by apply elem_of_nil in Hmem.
Qed.

End SamplingFacts.

Lemma registered_strips_lie_inside_tiles_witness :
  Forall
    (ParallelEdgeAligner.strip_inside Fixtures.toy_read Fixtures.three_tiles 20)
    (snd (ParallelEdgeAligner.compute_threshold
            (Fixtures.row_intersection Fixtures.narrow_bands)
            Fixtures.toy_read Fixtures.toy_register Fixtures.toy_percentile
            Fixtures.raw_draws Fixtures.raw_draws (seq 0 20)
            Fixtures.three_tiles)).
Proof.
  apply (registered_strips_lie_inside_tiles
           (Fixtures.row_intersection Fixtures.narrow_bands)
           Fixtures.toy_read Fixtures.toy_register Fixtures.toy_percentile
           Fixtures.raw_draws Fixtures.raw_draws (seq 0 20)
           Fixtures.three_tiles 20%Z).
  - reflexivity.
  - lia.
  - intros t c. reflexivity.
Defined.

Lemma warnings_count_unverified_pairs_witness :
  let its := Fixtures.row_intersection Fixtures.narrow_bands in
  ∃ self' evs,
    ParallelEdgeAligner.compute_threshold its
        Fixtures.toy_read Fixtures.toy_register Fixtures.toy_percentile
        Fixtures.raw_draws Fixtures.raw_draws (seq 0 20) Fixtures.three_tiles
      = (ok self', evs)
    ∧ length (filter (λ ev, ParallelEdgeAligner.is_warn ev = true) evs)
      = length (filter
                  (λ ev, ParallelEdgeAligner.registers_unverified its
                           Fixtures.three_tiles ev = true)
                  evs)
    ∧ (filter (λ ev, ParallelEdgeAligner.is_warn ev = true) evs = [] →
       ∀ w' s, ParallelEdgeAligner.Register w' s ∈ evs →
               ParallelEdgeAligner.non_overlapping its Fixtures.three_tiles
                 w' s = true).
Proof.
  intros its.
  apply (warnings_count_unverified_pairs its
           Fixtures.toy_read Fixtures.toy_register Fixtures.toy_percentile
           Fixtures.raw_draws Fixtures.raw_draws (seq 0 20)
           Fixtures.three_tiles 20%Z).
  - simpl. lia.
  - reflexivity.
  - reflexivity.
  - reflexivity.
  - vm_compute. congruence.
  - reflexivity.
Defined.

(** ** Edge aligner: the table of alignment records *)

Lemma Qgtb_le (a b : Q) : Qgtb a b = false ↔ (a <= b)%Q.
Proof.
  unfold Qgtb, Qltb. rewrite negb_false_iff. apply Qle_bool_iff.
Qed.

Section TableFacts.

Import ParallelEdgeAligner.

Local Open Scope Z_scope.

Variable align : Z → Z → result (shift * score).

Lemma apply_threshold_idempotent (threshold : score) (max_shift : Q)
    (v : shift * score) :
  apply_threshold threshold max_shift (apply_threshold threshold max_shift v)
  = apply_threshold threshold max_shift v.
Proof.
  unfold apply_threshold.
  destruct (rejected threshold max_shift v) eqn:Hv.
  - by destruct (rejected threshold max_shift (fst v, Inf)).
  - by rewrite Hv.
Qed.

Lemma record_after_None (cache : gmap (Z * Z) (shift * score)) (k : Z * Z) :
  record_after align cache k = None ↔
  cache !! k = None ∧ ∃ err, align (fst k) (snd k) = raise err.
Proof.
  unfold record_after, record_of. destruct (cache !! k) as [r|].
  - split; [done|]. by intros [? _].
  - destruct (align (fst k) (snd k)) as [err|r].
    + split; [by eauto|done].
    + split; [done|]. by intros [_ [err ?]].
Qed.

(** Registering again changes nothing where every edge either has its
    record or fails to register. *)
Lemma run_tasks_settled (args : list (Z * Z)) (order : list nat)
    (cache : gmap (Z * Z) (shift * score)) :
  (∀ e, e ∈ args →
        record_after align cache (edge_key e) = cache !! edge_key e) →
  Executor.run_tasks (register_pair align) args order cache = cache.
Proof.
  intros Hall. induction order as [|i rest IH]; [done|].
  cbn [Executor.run_tasks]. destruct (args !! i) as [e|] eqn:He; [|done].
  replace (snd (register_pair align e cache)) with cache; [done|].
  apply map_eq. intros k. rewrite register_pair_lookup.
  destruct (decide (k = edge_key e)) as [->|]; [|done].
  symmetry. apply Hall. by eapply list_elem_of_lookup_2.
Qed.

Lemma registered_lookup (order : list nat) (self : EdgeAligner) (k : Z * Z) :
  order ≡ₚ seq 0 (length (edges self)) →
  registered align order self !! k
  = if decide (k ∈ edge_key <$> edges self)
    then record_after align (_cache self) k
    else _cache self !! k.
Proof.
  intros Hperm. unfold registered, Executor.execute_parallel.
  case_decide as Hin.
  - apply list_elem_of_fmap in Hin as (e & -> & He).
    apply list_elem_of_lookup in He as [i Hi].
    apply (run_tasks_registers align _ _ _ i e); [|done].
    rewrite Hperm. apply elem_of_seq. apply lookup_lt_Some in Hi. lia.
  - destruct (_cache self !! k) as [r|] eqn:Hk.
    + by apply run_tasks_keeps.
    + apply eq_None_not_Some. intros Hsome.
      apply run_tasks_only_edges in Hsome as [[r Hr]|(e & He & <-)].
      * congruence.
      * apply Hin. apply list_elem_of_fmap. eauto.
Qed.

(** What an edge registration raises is not reported: [register_all]
    returns, in whatever order the registrations ran, and the table holds no
    record for an edge whose registration raised. *)
Theorem failed_registration_is_not_reported (order : list nat)
    (self : EdgeAligner) (threshold : score) (e : Z * Z) (err : exn) :
  max_error self = Some threshold →
  e ∈ edges self →
  record_of align (_cache self) (edge_key e) = raise err →
  ∃ self',
    register_all align order self = ok self'
    ∧ _cache self' !! edge_key e = None.
Proof.
  intros Hthr He Hrec.
  set (table := registered align order self).
  assert (Hnone : table !! edge_key e = None).
  { assert (Hafter : record_after align (_cache self) (edge_key e) = None).
    { unfold record_after. by rewrite Hrec. }
    unfold table, registered, Executor.execute_parallel.
    destruct (run_tasks_lookup align (edges self) order (_cache self)
                (edge_key e)) as [->| ->]; [|done].
    by apply record_after_None in Hafter as [? _]. }
  unfold register_all. fold table. rewrite Hthr.
  case_decide as Hempty; eexists; (split; [reflexivity|]);
    cbn [_cache set_records].
  - done.
  - by rewrite lookup_fmap, Hnone.
Qed.

(** The table of alignment records [register_all] leaves does not depend on
    the order in which the edge registrations run. *)
Theorem edge_table_independent_of_task_order (order1 order2 : list nat)
    (self : EdgeAligner) :
  order1 ≡ₚ seq 0 (length (edges self)) →
  order2 ≡ₚ seq 0 (length (edges self)) →
  registered align order1 self = registered align order2 self
  ∧ ∀ self1,
      register_all align order1 self = ok self1 →
      ∃ self2, register_all align order2 self = ok self2
               ∧ _cache self2 = _cache self1.
Proof.
  intros H1 H2.
  assert (Heq : registered align order1 self = registered align order2 self).
  { apply map_eq. intros k. by rewrite !registered_lookup. }
  split; [done|]. intros self1. unfold register_all. rewrite Heq.
  intros Hrun. eexists. split; [exact Hrun|done].
Qed.

(** Running [register_all] a second time changes no record: the cached
    pairs are not registered again and a rejected record stays rejected. *)
Theorem register_all_twice_changes_nothing (order1 order2 : list nat)
    (self : EdgeAligner) (threshold : score) :
  order1 ≡ₚ seq 0 (length (edges self)) →
  max_error self = Some threshold →
  ∃ self1 self2,
    register_all align order1 self = ok self1
    ∧ register_all align order2 self1 = ok self2
    ∧ _cache self2 = _cache self1.
Proof.
  intros Hperm Hthr.
  set (table := registered align order1 self).
  set (f := apply_threshold threshold (max_shift_pixels self)).
  assert (Hfirst : ∃ self1, register_all align order1 self = ok self1
            ∧ _cache self1 = f <$> table
            ∧ edges self1 = edges self
            ∧ max_error self1 = Some threshold
            ∧ max_shift_pixels self1 = max_shift_pixels self).
  { unfold register_all. fold table. rewrite Hthr.
    case_decide as Hempty; eexists; (split; [reflexivity|]); cbn;
      repeat split; try done. by rewrite Hempty, fmap_empty. }
  destruct Hfirst as (self1 & Hrun1 & Hcache & Hedges & Hthr1 & Hshift).
  assert (Hsecond : registered align order2 self1 = f <$> table).
  { unfold registered, Executor.execute_parallel. rewrite Hcache, Hedges.
    apply run_tasks_settled. intros e He.
    assert (Hlk : table !! edge_key e
                  = record_after align (_cache self) (edge_key e)).
    { unfold table. rewrite registered_lookup by done.
      rewrite decide_True; [done|]. apply list_elem_of_fmap. eauto. }
    rewrite lookup_fmap, Hlk.
    destruct (record_after align (_cache self) (edge_key e)) as [r|] eqn:Hr.
    - apply record_after_cached. by rewrite lookup_fmap, Hlk.
    - cbn. apply record_after_None. split.
      + by rewrite lookup_fmap, Hlk.
      + by apply record_after_None in Hr as [_ ?]. }
  exists self1. unfold register_all at 2. rewrite Hsecond, Hthr1, Hshift.
  fold f. case_decide as Hempty; eexists; (split; [exact Hrun1|]);
    (split; [reflexivity|]); cbn [_cache set_records]; rewrite Hcache.
  - done.
  - rewrite <- map_fmap_compose. apply map_fmap_ext. intros k v _.
    apply apply_threshold_idempotent.
Qed.

(** After [register_all], every record of the table, whether of an edge or
    left from before, either has the error [np.inf] or is within bounds:
    its error does not exceed the threshold and neither component of its
    shift exceeds [max_shift_pixels] in absolute value. *)
Theorem accepted_records_within_bounds (order : list nat)
    (self self' : EdgeAligner) (threshold : score) :
  max_error self = Some threshold →
  register_all align order self = ok self' →
  ∀ k v, _cache self' !! k = Some v →
    snd v = Inf
    ∨ (¬ score_exceeds (snd v) threshold
       ∧ (Qabs (fst (fst v)) <= max_shift_pixels self)%Q
       ∧ (Qabs (snd (fst v)) <= max_shift_pixels self)%Q).
Proof.
  intros Hthr. unfold register_all. rewrite Hthr.
  set (table := registered align order self).
  assert (Hcache : ∀ s, (if decide (table = ∅)
      then inr (set_records self (snd <$> (snd <$> map_to_list table)) table)
      else inr (set_records self (snd <$> (snd <$> map_to_list table))
                  (apply_threshold threshold (max_shift_pixels self) <$> table)))
      = (inr s : result EdgeAligner) →
      _cache s = apply_threshold threshold (max_shift_pixels self) <$> table).
  { intros s. case_decide as Hempty; intros [= <-]; cbn; [|done].
    by rewrite Hempty, fmap_empty. }
  intros Hrun k v. rewrite (Hcache _ Hrun), lookup_fmap.
  destruct (table !! k) as [v0|]; [|done]. cbn. intros [= <-].
  unfold apply_threshold.
  destruct (rejected threshold (max_shift_pixels self) v0) eqn:Hrej.
  - by left.
  - right. unfold rejected in Hrej.
    apply orb_false_iff in Hrej as [Herr Hshift].
    apply orb_false_iff in Hshift as [Hy Hx].
    repeat split.
    + intros Hex. apply (proj2 (score_gtb_exceeds _ _)) in Hex.
      unfold shift in *. congruence.
    + by apply Qgtb_le.
    + by apply Qgtb_le.
Qed.

End TableFacts.

Lemma edge_table_independent_of_task_order_witness :
  let self := Fixtures.three_tiles_thresholded in
  ParallelEdgeAligner.registered Fixtures.toy_align [1; 0] self
    = ParallelEdgeAligner.registered Fixtures.toy_align [0; 1] self
  ∧ ∀ self1,
      ParallelEdgeAligner.register_all Fixtures.toy_align [1; 0] self
        = ok self1 →
      ∃ self2,
        ParallelEdgeAligner.register_all Fixtures.toy_align [0; 1] self
          = ok self2
        ∧ ParallelEdgeAligner._cache self2 = ParallelEdgeAligner._cache self1.
Proof.
  intros self.
  apply (edge_table_independent_of_task_order Fixtures.toy_align
           [1; 0] [0; 1] self).
  - apply perm_swap.
  - reflexivity.
Defined.

Lemma register_all_twice_changes_nothing_witness :
  ∃ self1 self2,
    ParallelEdgeAligner.register_all Fixtures.toy_align [1; 0]
      Fixtures.three_tiles_thresholded = ok self1
    ∧ ParallelEdgeAligner.register_all Fixtures.toy_align [0; 1] self1
      = ok self2
    ∧ ParallelEdgeAligner._cache self2 = ParallelEdgeAligner._cache self1.
Proof.
  apply (register_all_twice_changes_nothing Fixtures.toy_align
           [1; 0] [0; 1] Fixtures.three_tiles_thresholded (Finite 2%Q)).
  - apply perm_swap.
  - reflexivity.
Defined.

Lemma failed_registration_is_not_reported_witness :
  ∃ self',
    ParallelEdgeAligner.register_all Fixtures.faulty_align [1; 0]
      Fixtures.three_tiles_thresholded = ok self'
    ∧ ParallelEdgeAligner._cache self' !! ParallelEdgeAligner.edge_key (1, 2)%Z
      = None.
Proof.
  apply (failed_registration_is_not_reported Fixtures.faulty_align [1; 0]
           Fixtures.three_tiles_thresholded (Finite 2%Q) (1, 2)%Z
           (TaskError 2)).
  - reflexivity.
  - vm_compute. apply list_elem_of_further, list_elem_of_here.
  - reflexivity.
Defined.

Lemma accepted_records_within_bounds_witness :
  let v : shift * score := ((0%Q, 1%Q), Finite 1%Q) in
  snd v = Inf
  ∨ (¬ score_exceeds (snd v) (Finite 2%Q)
     ∧ (Qabs (fst (fst v))
        <= ParallelEdgeAligner.max_shift_pixels
             Fixtures.three_tiles_thresholded)%Q
     ∧ (Qabs (snd (fst v))
        <= ParallelEdgeAligner.max_shift_pixels
             Fixtures.three_tiles_thresholded)%Q).
Proof.
  intros v.
  apply (accepted_records_within_bounds Fixtures.toy_align [1; 0]
           Fixtures.three_tiles_thresholded Fixtures.three_tiles_registered
           (Finite 2%Q) eq_refl eq_refl (0, 1)%Z v).
  vm_compute. reflexivity.
Defined.

(** ** Multi-cycle writer: the write tasks *)

Section WriterFacts.

Import ParallelTiffListWriter.

Context {mosaic : Type}.

Variable channels : mosaic → list Z.

Variable path_format : nat → Z → string.

Lemma channel_args_spec (cycle : nat) (m : mosaic) (chs : list Z) :
  ∀ tqdm_ind,
    channel_args path_format cycle m chs tqdm_ind
    = imap (λ i channel,
              {| task_cycle := cycle; task_mosaic := m;
                 task_channel := channel;
                 task_path := path_format cycle channel;
                 task_tqdm_ind := tqdm_ind + i |}) chs.
Proof.
  induction chs as [|ch chs IH]; intros k; [done|].
  cbn [channel_args imap]. rewrite Nat.add_0_r, IH. f_equal.
  apply imap_ext. intros i x _. cbn. f_equal. lia.
Qed.

Lemma mosaic_args_spec (mosaics : list mosaic) :
  ∀ cycle tqdm_ind,
    length (mosaic_args channels path_format cycle mosaics tqdm_ind)
    = sum_list (length ∘ channels <$> mosaics)
    ∧ task_tqdm_ind <$> mosaic_args channels path_format cycle mosaics tqdm_ind
      = seq tqdm_ind (sum_list (length ∘ channels <$> mosaics))
    ∧ (λ t, (task_cycle t, task_channel t))
        <$> mosaic_args channels path_format cycle mosaics tqdm_ind
      = concat (imap (λ i m, (λ channel, (cycle + i, channel)) <$> channels m)
                  mosaics)
    ∧ Forall (λ t, task_path t = path_format (task_cycle t) (task_channel t)
                   ∧ ∃ i, task_cycle t = cycle + i
                          ∧ mosaics !! i = Some (task_mosaic t))
        (mosaic_args channels path_format cycle mosaics tqdm_ind).
Proof.
  induction mosaics as [|m rest IH]; intros cycle k.
  - cbn. repeat split; constructor.
  - cbn [mosaic_args fmap list_fmap sum_list sum_list_with imap concat compose].
    destruct (IH (S cycle) (k + length (channels m))) as (Hlen & Hind & Hpairs & Hall).
    rewrite channel_args_spec.
    rewrite length_app, length_imap, !fmap_app, Hlen, Hind, Hpairs.
    repeat split.
    + rewrite seq_app. f_equal.
      apply list_eq. intros i. rewrite list_lookup_fmap, list_lookup_imap.
      destruct (channels m !! i) as [ch|] eqn:Hi; cbn; symmetry.
      * apply lookup_seq. split; [done|]. by eapply lookup_lt_Some.
      * apply lookup_seq_ge. by apply lookup_ge_None.
    + rewrite Nat.add_0_r. f_equal.
      * apply list_eq. intros i.
        rewrite !list_lookup_fmap, list_lookup_imap.
        by destruct (channels m !! i).
      * f_equal. apply imap_ext. intros i x _. cbn.
        apply list_fmap_ext. intros j ch _. f_equal. lia.
    + apply Forall_app. split.
      * apply Forall_forall. intros t Ht.
        apply list_elem_of_lookup in Ht as [i Hi].
        rewrite list_lookup_imap in Hi.
        destruct (channels m !! i) as [ch|]; [|done]. injection Hi as <-. cbn.
        split; [done|]. exists 0. split; [lia|done].
      * eapply Forall_impl; [exact Hall|]. intros t [Hp (i & Hc & Hm)].
        split; [done|]. exists (S i). split; [lia|done].
Qed.

(** The write tasks: one per (cycle, channel) pair of every mosaic, cycle by
    cycle and within a cycle in the order of the mosaic's channels, each
    with the path formatted from its own cycle and channel and the mosaic of
    its cycle, and with the progress-bar positions 0, 1, 2, ... in task
    order. *)
Theorem write_args_enumerate_cycles_and_channels (mosaics : list mosaic) :
  let args := write_args channels path_format mosaics in
  length args = sum_list (length ∘ channels <$> mosaics)
  ∧ task_tqdm_ind <$> args = seq 0 (length args)
  ∧ (λ t, (task_cycle t, task_channel t)) <$> args
    = concat (imap (λ cycle m, (λ channel, (cycle, channel)) <$> channels m)
                mosaics)
  ∧ Forall (λ t, task_path t = path_format (task_cycle t) (task_channel t)
                 ∧ mosaics !! task_cycle t = Some (task_mosaic t))
      args.
Proof.
  cbn zeta. unfold write_args.
  destruct (mosaic_args_spec mosaics 0 0) as (Hlen & Hind & Hpairs & Hall).
  repeat split; try done.
  - by rewrite Hlen.
  - eapply Forall_impl; [exact Hall|]. intros t [Hp (i & Hc & Hm)].
    split; [done|]. by rewrite Hc.
Qed.

End WriterFacts.

(** ** Edge aligner: the non-overlap test and the recorded scores *)

Section ScoreFacts.

Import ParallelEdgeAligner.

Local Open Scope Z_scope.

Variable intersection : Z → Z → option Z → Intersection.

Variable read : Z → Z → list (list Z).

Variable utils_register : list (list Z) → list (list Z) → Q → shift * score.

Variable percentile : list score → Q → score.

Variable seeded : nat → Z.

Variable entropy : nat → Z.

(** Two strips of one tile that pass the non-overlap test share no row:
    their offsets differ by more than the strip width. *)
Theorem same_tile_strips_share_no_row (self : EdgeAligner) (w t o1 o2 : Z) :
  in_edges (edges self) t t = false →
  non_overlapping intersection self w (t, t, o1, o2) = true →
  w < Z.abs (o1 - o2)
  ∧ ∀ row, ¬ ((o1 ≤ row < o1 + w) ∧ (o2 ≤ row < o2 + w)).
Proof.
  intros Hloop. unfold non_overlapping. rewrite Hloop, Z.eqb_refl. cbn.
  destruct (Z.gtb_spec (Z.abs (o1 - o2)) w); [|done]. intros _.
  split; [lia|]. intros row. lia.
Qed.

Lemma submitted_no_register (evs : list event) :
  Forall (λ ev, is_register ev = false) evs → submitted evs = [].
Proof.
  unfold submitted. induction 1 as [|ev evs Hev _ IH]; [done|].
  by destruct ev.
Qed.

Lemma submitted_registers (w : Z) (l : list sample) :
  submitted (Register w <$> l) = (λ s, (w, s)) <$> l.
Proof.
  unfold submitted. induction l as [|s l IH]; [done|]. cbn. by rewrite IH.
Qed.

(** When threshold computation of a graph with more than one edge returns,
    the recorded negative-error sample lists, in submission order and
    whatever the completion order, the score of each submitted strip pair,
    and the threshold is the percentile of that sample at
    [false_positive_ratio * 100]; nothing else of the aligner changes. *)
Theorem negative_sample_scores_submitted_pairs (order : list nat)
    (self self' : EdgeAligner) (evs : list event) :
  (1 < length (edges self))%nat →
  order ≡ₚ seq 0 (Z.to_nat (num_samples self)) →
  compute_threshold intersection read utils_register percentile seeded entropy
      order self = (ok self', evs) →
  let errs :=
    (λ ws, register read utils_register self (fst ws) (snd ws))
      <$> submitted evs in
  errors_negative_sampled self' = Some errs
  ∧ max_error self' = Some (percentile errs (false_positive_ratio self * 100)%Q)
  ∧ self' = set_threshold self errs
              (percentile errs (false_positive_ratio self * 100)%Q).
Proof.
  intros Hedges Hperm. unfold compute_threshold.
  destruct (Z.leb_spec (Z.of_nat (length (edges self))) 1); [lia|].
  destruct (strip_width intersection self) as [w|]; [|done].
  destruct (Z.ltb_spec (num_samples self) 0); [done|].
  cbv zeta. unfold bind. cbv beta.
  match goal with |- context [sample_loop _ _ _ ?mo ?n ?p ?w0] =>
    destruct (sample_loop intersection self w mo n p w0)
      as [[e|samples] w1] eqn:Hloop
  end; [done|].
  apply (sample_loop_log intersection) in Hloop
    as (pre & Hlog & Hreg & _ & Hl & _); try done.
  unfold tell, ret. cbn [log] in *.
  rewrite (ordered_results_total _ (register read utils_register self w));
    [|done|by rewrite Hl].
  rewrite mapM_id_Some. intros [= <- <-].
  assert (Hsub : submitted (pre ++ (Register w <$> samples))
                 = (λ s, (w, s)) <$> samples).
  { unfold submitted. rewrite omap_app. fold (submitted pre).
    fold (submitted (Register w <$> samples)).
    by rewrite submitted_no_register, submitted_registers. }
  cbn [app] in Hlog. rewrite Hlog, Hsub, <- list_fmap_compose. done.
Qed.

End ScoreFacts.

Lemma same_tile_strips_share_no_row_witness :
  (20 < Z.abs (10 - 40))%Z
  ∧ ∀ row, ¬ ((10 ≤ row < 10 + 20)%Z ∧ (40 ≤ row < 40 + 20)%Z).
Proof.
  apply (same_tile_strips_share_no_row
           (Fixtures.row_intersection Fixtures.narrow_bands)
           Fixtures.three_tiles 20 1 10 40).
  - reflexivity.
  - reflexivity.
Defined.

Lemma negative_sample_scores_submitted_pairs_witness :
  let self := Fixtures.three_tiles in
  let self' := Fixtures.three_tiles_after_threshold in
  let errs :=
    (λ ws, ParallelEdgeAligner.register Fixtures.toy_read Fixtures.toy_register
             self (fst ws) (snd ws))
      <$> ParallelEdgeAligner.submitted (snd Fixtures.three_tiles_threshold_run) in
  ParallelEdgeAligner.errors_negative_sampled self' = Some errs
  ∧ ParallelEdgeAligner.max_error self'
    = Some (Fixtures.toy_percentile errs
              (ParallelEdgeAligner.false_positive_ratio self * 100)%Q)
  ∧ self' = ParallelEdgeAligner.set_threshold self errs
              (Fixtures.toy_percentile errs
                 (ParallelEdgeAligner.false_positive_ratio self * 100)%Q).
Proof.
  intros self self' errs.
  apply (negative_sample_scores_submitted_pairs
           (Fixtures.row_intersection Fixtures.narrow_bands)
           Fixtures.toy_read Fixtures.toy_register Fixtures.toy_percentile
           Fixtures.raw_draws Fixtures.raw_draws (seq 0 20) self self'
           (snd Fixtures.three_tiles_threshold_run)).
  - simpl. lia.
  - reflexivity.
  - vm_compute. reflexivity.
Defined.

(** ** Edge aligner: the sample count of a simple graph *)

Lemma tile_pairs_length (n : nat) : 2 * length (ParallelEdgeAligner.tile_pairs n) = n * (n - 1).
Proof.
  unfold ParallelEdgeAligner.tile_pairs. induction n as [|n IH]; [done|].
  rewrite seq_S, bind_app, length_app. cbn [Nat.add mbind list_bind].
  rewrite app_nil_r, length_fmap, length_seq.
  change (foldr _ _ _) with (mbind (M := list)
    (λ b, (λ a, (Z.of_nat a, Z.of_nat b)) <$> seq 0 b) (seq 0 n)) in IH.
  nia.
Qed.

Lemma tile_pairs_elem (n : nat) (a b : Z) :
  (0 ≤ a < b)%Z → (b < Z.of_nat n)%Z → (a, b) ∈ ParallelEdgeAligner.tile_pairs n.
Proof.
  intros Hab Hb. unfold ParallelEdgeAligner.tile_pairs.
  apply list_elem_of_bind. exists (Z.to_nat b). split.
  - apply list_elem_of_fmap. exists (Z.to_nat a). split.
    + f_equal; lia.
    + apply elem_of_seq. lia.
  - apply elem_of_seq. lia.
Qed.

(** For a graph without loops or repeated edges on the layer's tiles, the
    count of non-adjacent pairs is not negative and the number of sampled
    strip pairs lies between 10 and 1000. *)
Theorem simple_graph_sample_count (self : ParallelEdgeAligner.EdgeAligner) :
  ParallelEdgeAligner.simple_graph
    (ParallelEdgeAligner.num_images (ParallelEdgeAligner.metadata self))
    (ParallelEdgeAligner.edges self) →
  (0 ≤ ParallelEdgeAligner.num_distant_pairs self)%Z
  ∧ (10 ≤ ParallelEdgeAligner.num_samples self ≤ 1000)%Z.
Proof.
  intros [Hnodup Hrange].
  set (T := ParallelEdgeAligner.num_images (ParallelEdgeAligner.metadata self)) in *.
  assert (Hlen : length (ParallelEdgeAligner.edges self)
                 ≤ length (ParallelEdgeAligner.tile_pairs (Z.to_nat T))).
  { rewrite <- (length_fmap ParallelEdgeAligner.edge_key).
    apply submseteq_length, NoDup_submseteq; [done|].
    intros k Hk. apply list_elem_of_fmap in Hk as (e & -> & He).
    destruct (Hrange e He) as (Ha & Hb & Hne).
    unfold ParallelEdgeAligner.edge_key. apply tile_pairs_elem; lia. }
  pose proof (tile_pairs_length (Z.to_nat T)) as Hpairs.
  assert (Hndp : (0 ≤ ParallelEdgeAligner.num_distant_pairs self)%Z).
  { unfold ParallelEdgeAligner.num_distant_pairs. fold T.
    destruct (Z.le_gt_cases T 0) as [Hle|Hgt].
    - replace (Z.to_nat T) with 0 in Hlen by lia. cbn in Hlen.
      assert (0 ≤ T * (T - 1) / 2)%Z by (apply Z.div_pos; nia). lia.
    - assert (T * (T - 1) = 2 * Z.of_nat (length (ParallelEdgeAligner.tile_pairs
                                                    (Z.to_nat T))))%Z as ->
        by nia.
      rewrite Z.mul_comm, Z.div_mul by done. lia. }
  split; [done|]. unfold ParallelEdgeAligner.num_samples.
  destruct (Z.gtb_spec (ParallelEdgeAligner.num_distant_pairs self) 8); lia.
Qed.

Lemma simple_graph_sample_count_witness :
  (0 ≤ ParallelEdgeAligner.num_distant_pairs Fixtures.six_tiles)%Z
  ∧ (10 ≤ ParallelEdgeAligner.num_samples Fixtures.six_tiles ≤ 1000)%Z.
Proof.
  apply (simple_graph_sample_count Fixtures.six_tiles). split.
  - apply (bool_decide_unpack (NoDup _)). vm_compute. exact I.
  - intros e He. vm_compute in He.
    repeat (apply elem_of_cons in He as [->|He]; [cbn; lia|]).
    by apply elem_of_nil in He.
Defined.

(** ** Edge aligner: threshold computation followed by registration *)

Section FewEdges.

Import ParallelEdgeAligner.

Local Open Scope Z_scope.

Variable intersection : Z → Z → option Z → Intersection.

Variable read : Z → Z → list (list Z).

Variable utils_register : list (list Z) → list (list Z) → Q → shift * score.

Variable percentile : list score → Q → score.

Variable seeded : nat → Z.

Variable entropy : nat → Z.

Variable align : Z → Z → result (shift * score).

(** On a layer with at most one edge, threshold computation followed by
    [register_all] never rejects a record for its error: the record of the
    edge, where its registration returned, keeps its computed shift, and its
    error is the computed one unless a component of the shift exceeds
    [max_shift_pixels] in absolute value. *)
Theorem few_edges_rejected_only_by_shift (order_threshold order : list nat)
    (self : EdgeAligner) :
  (length (edges self) ≤ 1)%nat →
  order ≡ₚ seq 0 (length (edges self)) →
  ∃ self1 self2,
    compute_threshold intersection read utils_register percentile seeded
        entropy order_threshold self = (ok self1, [])
    ∧ register_all align order self1 = ok self2
    ∧ ∀ e computed,
        e ∈ edges self →
        record_of align (_cache self) (edge_key e) = ok computed →
        ∃ final,
          _cache self2 !! edge_key e = Some final
          ∧ fst final = fst computed
          ∧ (snd final = snd computed
             ∨ (snd final = Inf
                ∧ ((max_shift_pixels self < Qabs (fst (fst computed)))%Q
                   ∨ (max_shift_pixels self < Qabs (snd (fst computed)))%Q))).
Proof.
  intros Hedges Hperm. exists (set_threshold self [] Inf).
  unfold compute_threshold.
  destruct (Z.leb_spec (Z.of_nat (length (edges self))) 1); [|lia].
  set (self1 := set_threshold self [] Inf).
  set (table := registered align order self1).
  exists (set_records self1 (snd <$> (snd <$> map_to_list table))
            (apply_threshold Inf (max_shift_pixels self) <$> table)).
  split; [done|]. split.
  { unfold register_all. fold table. cbn [max_error self1 set_threshold].
    case_decide as Hempty; [|done]. by rewrite Hempty, fmap_empty. }
  intros e computed He Hrec. cbn [_cache set_records]. rewrite lookup_fmap.
  unfold table. rewrite (registered_lookup align order self1) by done.
  cbn [_cache edges self1 set_threshold].
  rewrite decide_True by (apply list_elem_of_fmap; eauto).
  unfold record_after. rewrite Hrec. cbn [fmap option_fmap option_map].
  eexists. split; [reflexivity|]. unfold apply_threshold, rejected.
  assert (score_gtb (snd computed) Inf = false) as ->
    by (by destruct (snd computed)).
  cbn [orb].
  destruct (Qgtb (Qabs (fst (fst computed))) (max_shift_pixels self)) eqn:Hy.
  - cbn. split; [done|]. right. split; [done|]. left. by apply Qgtb_lt.
  - destruct (Qgtb (Qabs (snd (fst computed))) (max_shift_pixels self)) eqn:Hx.
    + cbn. split; [done|]. right. split; [done|]. right. by apply Qgtb_lt.
    + cbn. split; [done|]. by left.
Qed.

End FewEdges.

Lemma few_edges_rejected_only_by_shift_witness :
  let self := Fixtures.row_layer 2 [(0, 1)%Z] in
  let align := λ t1 t2 : Z,
    ok ((inject_Z 20, inject_Z 1), Finite (inject_Z 5))
    : result (shift * score) in
  ∃ self1 self2,
    ParallelEdgeAligner.compute_threshold
        (Fixtures.row_intersection Fixtures.narrow_bands)
        Fixtures.toy_read Fixtures.toy_register Fixtures.toy_percentile
        Fixtures.raw_draws Fixtures.raw_draws [] self = (ok self1, [])
    ∧ ParallelEdgeAligner.register_all align [0] self1 = ok self2
    ∧ ∀ e computed,
        e ∈ ParallelEdgeAligner.edges self →
        ParallelEdgeAligner.record_of align
          (ParallelEdgeAligner._cache self)
          (ParallelEdgeAligner.edge_key e) = ok computed →
        ∃ final,
          ParallelEdgeAligner._cache self2 !! ParallelEdgeAligner.edge_key e
            = Some final
          ∧ fst final = fst computed
          ∧ (snd final = snd computed
             ∨ (snd final = Inf
                ∧ ((ParallelEdgeAligner.max_shift_pixels self
                    < Qabs (fst (fst computed)))%Q
                   ∨ (ParallelEdgeAligner.max_shift_pixels self
                      < Qabs (snd (fst computed)))%Q))).
Proof.
  intros self align.
  apply (few_edges_rejected_only_by_shift
           (Fixtures.row_intersection Fixtures.narrow_bands)
           Fixtures.toy_read Fixtures.toy_register Fixtures.toy_percentile
           Fixtures.raw_draws Fixtures.raw_draws align [] [0] self).
  - simpl. lia.
  - reflexivity.
Defined.
